(** * init_db.py: schema convergence of the notes database

    A shallow embedding of [src/database/init_db.py] and of the part of the
    SQLite engine and of Python's [sqlite3] driver that the script drives.

    Scope of the engine model.  The catalog holds ordinary tables only (no
    views, indexes or triggers), names are compared as the script's own
    checks compare them (exact spelling), a primary key is an
    [INTEGER PRIMARY KEY AUTOINCREMENT] column (an alias of the rowid), and
    rowids are unbounded integers.  The texts the script binds are not
    numeric literals, so column affinity leaves them as text. *)

From Stdlib Require Import Ascii String.
From stdpp Require Import gmap strings list.

Local Open Scope string_scope.
Local Open Scope list_scope.
Local Open Scope Z_scope.

(** ** The storage engine *)

Module Sql.

Inductive value := VNull | VInt (n : Z) | VText (s : string).

#[export] Instance value_eq_dec : EqDecision value.
Proof. solve_decision. Defined.

Inductive dflt := NoDefault | CurrentTimestamp.

#[export] Instance dflt_eq_dec : EqDecision dflt.
Proof. solve_decision. Defined.

(** A column definition.  [c_pk] stands for
    [INTEGER PRIMARY KEY AUTOINCREMENT]. *)
Record column := Column {
  c_name : string;
  c_type : string;
  c_notnull : bool;
  c_unique : bool;
  c_pk : bool;
  c_default : dflt
}.

#[export] Instance column_eq_dec : EqDecision column.
Proof. solve_decision. Defined.

(** A stored row: its rowid and the cells of the columns that are not the
    rowid alias. *)
Record row := Row { rowid : Z; cells : gmap string value }.

#[export] Instance row_eq_dec : EqDecision row.
Proof. solve_decision. Defined.

(** A table: its columns in declaration order, its rows in insertion
    order and its [sqlite_sequence] entry (the largest rowid ever handed
    out by AUTOINCREMENT). *)
Record table := Table {
  t_columns : list column;
  t_rows : list row;
  t_seq : Z
}.

#[export] Instance table_eq_dec : EqDecision table.
Proof. solve_decision. Defined.

Abbreviation db := (gmap string table).

(** The exception classes of the driver that the engine's errors map to. *)
Inductive exn :=
| OperationalError (msg : string)
| IntegrityError (msg : string)
| DatabaseError (msg : string).

Definition col_names (t : table) : list string := c_name <$> t_columns t.

Definition find_column (t : table) (c : string) : option column :=
  List.find (λ col, bool_decide (c_name col = c)) (t_columns t).

(** What a SELECT reads in column [c] of row [r]: the rowid for the rowid
    alias, the stored cell otherwise, NULL when nothing is stored. *)
Definition read (t : table) (r : row) (c : string) : value :=
  match find_column t c with
  | Some col =>
      if c_pk col then VInt (rowid r) else default VNull (cells r !! c)
  | None => VNull
  end.

(** [CREATE TABLE IF NOT EXISTS name (cols)] *)
Definition create_table_if_not_exists
    (name : string) (cols : list column) (d : db) : db :=
  match d !! name with
  | Some _ => d
  | None => <[name := Table cols [] 0]> d
  end.

(** [ALTER TABLE name ADD COLUMN col]: the column is appended and every
    stored row reads NULL in it. *)
Definition add_cell (c : string) (r : row) : row :=
  Row (rowid r) (<[c := VNull]> (cells r)).

Definition add_column (name : string) (col : column) (d : db) : exn + db :=
  match d !! name with
  | None => inl (OperationalError ("no such table: " +:+ name))
  | Some t =>
      if bool_decide (c_name col ∈ col_names t)
      then inl (OperationalError ("duplicate column name: " +:+ c_name col))
      else inr (<[name := Table (t_columns t ++ [col])
                                (add_cell (c_name col) <$> t_rows t)
                                (t_seq t)]> d)
  end.

(** [PRAGMA table_info(name)]: one row per column,
    (cid, name, type, notnull, dflt_value, pk); no row for an unknown
    table. *)
Definition info_row : Type :=
  nat * string * string * bool * option string * bool.

Definition dflt_text (x : dflt) : option string :=
  match x with
  | NoDefault => None
  | CurrentTimestamp => Some "CURRENT_TIMESTAMP"
  end.

Definition table_info (name : string) (d : db) : list info_row :=
  match d !! name with
  | None => []
  | Some t =>
      imap (λ i c, (i, c_name c, c_type c, c_notnull c,
                     dflt_text (c_default c), c_pk c)) (t_columns t)
  end.

(** [INSERT OR REPLACE INTO name (c1, ..) VALUES (?, ..)] with text
    bindings. *)
Definition assigned (assigns : list (string * string)) (c : string)
    : option string :=
  snd <$> List.find (λ p, bool_decide (fst p = c)) assigns.

Definition new_value (now : string) (assigns : list (string * string))
    (c : column) : value :=
  match assigned assigns (c_name c) with
  | Some s => VText s
  | None =>
      match c_default c with
      | CurrentTimestamp => VText now
      | NoDefault => VNull
      end
  end.

Definition new_cells (now : string) (assigns : list (string * string))
    (cols : list column) : gmap string value :=
  foldr (λ c m, if c_pk c then m
                else <[c_name c := new_value now assigns c]> m) ∅ cols.

(** A stored row conflicts with the new cells when they agree, on a
    non-NULL value, in some UNIQUE column. *)
Definition conflicts (cols : list column) (nc : gmap string value)
    (r : row) : bool :=
  existsb (λ c, c_unique c && negb (c_pk c) &&
                match nc !! c_name c with
                | Some v => bool_decide (v ≠ VNull) &&
                            bool_decide (cells r !! c_name c = Some v)
                | None => false
                end) cols.

Definition max_rowid (rs : list row) : Z :=
  foldr (λ r m, Z.max (rowid r) m) 0 rs.

Definition has_pk (t : table) : bool := existsb c_pk (t_columns t).

(** The rowid of the next row: chosen before conflicting rows are
    deleted; with AUTOINCREMENT it is also above every rowid ever used. *)
Definition next_rowid (t : table) : Z :=
  (if has_pk t then Z.max (t_seq t) (max_rowid (t_rows t))
   else max_rowid (t_rows t)) + 1.

(** Compiling the statement fails on an unknown table or column. *)
Definition insert_prepare (name : string) (assigns : list (string * string))
    (d : db) : option exn :=
  match d !! name with
  | None => Some (OperationalError ("no such table: " +:+ name))
  | Some t =>
      match List.find (λ p, bool_decide (fst p ∉ col_names t)) assigns with
      | Some p =>
          Some (OperationalError
                  ("table " +:+ name +:+ " has no column named " +:+ fst p))
      | None => None
      end
  end.

(** Running it: a text bound to the rowid alias is a datatype mismatch;
    a NOT NULL column left without a value aborts; rows that conflict on
    a UNIQUE column are deleted; the new row is appended. *)
Definition insert_step (now : string) (name : string)
    (assigns : list (string * string)) (d : db) : exn + db :=
  match d !! name with
  | None => inl (OperationalError ("no such table: " +:+ name))
  | Some t =>
      let cols := t_columns t in
      let nc := new_cells now assigns cols in
      if existsb (λ c, c_pk c &&
                       bool_decide (is_Some (assigned assigns (c_name c))))
                 cols
      then inl (IntegrityError "datatype mismatch")
      else if existsb (λ c, c_notnull c && negb (c_pk c) &&
                            bool_decide (nc !! c_name c = Some VNull)) cols
      then inl (IntegrityError "NOT NULL constraint failed")
      else
        let i := next_rowid t in
        inr (<[name := Table cols
                 (filter (λ r, conflicts cols nc r = false) (t_rows t)
                    ++ [Row i nc])
                 (if has_pk t then i else t_seq t)]> d)
  end.

End Sql.

(** ** Python's [sqlite3] driver

    A connection in the driver's default (legacy) transaction control: a
    transaction is opened implicitly before an INSERT and stays open until
    [commit]; a schema statement opens none, so outside a transaction it is
    durable as soon as it has run.  A connection that is dropped with a
    transaction still open leaves on disk what was durable before. *)

Module Driver.
Import Sql.

(** What the script does not control: the clock read by
    [CURRENT_TIMESTAMP] at each statement, the statements at which the
    engine gives up (database locked, disk full), and how the engine's
    parser reads a text written in a statement where a name is expected
    ([None] when the text does not parse as one name). *)
Record engine := Engine {
  clock : nat → string;
  fault : nat → bool;
  reads_name : string → option string
}.

(** [disk] is what is durable, [work] what the connection sees, [pc] the
    number of statements issued so far.  [file_ok] is false for a file
    that is not a database. *)
Record conn := Conn {
  file_ok : bool;
  disk : db;
  work : db;
  in_txn : bool;
  pc : nat
}.

Inductive res (A : Type) :=
| Ok (a : A) (c : conn)
| Raise (x : exn) (c : conn).
Arguments Ok {A} a c.
Arguments Raise {A} x c.

Definition M (A : Type) : Type := conn → res A.

Definition ret {A} (a : A) : M A := λ c, Ok a c.

Definition bind {A B} (m : M A) (f : A → M B) : M B :=
  λ c, match m c with
       | Ok a c' => f a c'
       | Raise x c' => Raise x c'
       end.

Definition raise {A} (x : exn) : M A := λ c, Raise x c.

Definition get_work : M db := λ c, Ok (work c) c.

(** Every statement that touches the database file starts here: it
    fails on a file that is not a database and when the engine gives up;
    it yields the statement's index. *)
Definition begin_statement (e : engine) : M nat :=
  λ c,
    let c' := Conn (file_ok c) (disk c) (work c) (in_txn c) (S (pc c)) in
    if negb (file_ok c)
    then Raise (DatabaseError "file is not a database") c'
    else if fault e (pc c)
    then Raise (OperationalError "database is locked") c'
    else Ok (pc c) c'.

(** [SELECT 1]: reads no page of the file. *)
Definition select_one : M (list Z) := ret [1].

(** The rows of [sqlite_master WHERE type='table' AND name = ?]. *)
Definition master_rows (name : string) (d : db) : list string :=
  match d !! name with
  | Some _ => [name]
  | None => []
  end.

(** [SELECT name FROM sqlite_master WHERE type='table' AND name = ?] *)
Definition select_master_name (e : engine) (name : string)
    : M (list string) :=
  bind (begin_statement e) (λ _,
  bind get_work (λ d, ret (master_rows name d))).

(** [SELECT 1 FROM sqlite_master WHERE type='table' AND name = ?] *)
Definition select_master_one (e : engine) (name : string) : M (list Z) :=
  bind (begin_statement e) (λ _,
  bind get_work (λ d, ret ((λ _, 1) <$> master_rows name d))).

(** [PRAGMA table_info(text)].  The text between the parentheses is
    part of the statement, not a bound value: the engine's parser decides
    which table it names, if any. *)
Definition pragma_table_info (e : engine) (text : string)
    : M (list info_row) :=
  bind (begin_statement e) (λ _,
    match reads_name e text with
    | None => raise (OperationalError "syntax error")
    | Some n => bind get_work (λ d, ret (table_info n d))
    end).

(** A schema statement. *)
Definition execute_ddl (e : engine) (stmt : db → exn + db) : M unit :=
  bind (begin_statement e) (λ _ c,
    match stmt (work c) with
    | inl x => Raise x c
    | inr d' =>
        Ok tt (Conn (file_ok c) (if in_txn c then disk c else d') d'
                    (in_txn c) (pc c))
    end).

(** [INSERT OR REPLACE INTO name (..) VALUES (?, ..)] *)
Definition execute_insert (e : engine) (name : string)
    (assigns : list (string * string)) : M unit :=
  bind (begin_statement e) (λ i c,
    match insert_prepare name assigns (work c) with
    | Some x => Raise x c
    | None =>
        match insert_step (clock e i) name assigns (work c) with
        | inl x => Raise x (Conn (file_ok c) (disk c) (work c) true (pc c))
        | inr d' => Ok tt (Conn (file_ok c) (disk c) d' true (pc c))
        end
    end).

#[export] Instance M_ret : MRet M := @ret.
#[export] Instance M_bind : MBind M := λ A B f m, bind m f.

(** [conn.commit()] *)
Definition commit (e : engine) : M unit :=
  λ c,
    if in_txn c
    then bind (begin_statement e) (λ _ c',
           Ok tt (Conn (file_ok c') (work c') (work c') false (pc c'))) c
    else Ok tt c.

End Driver.


(** ** The script *)

Module InitDb.
Import Sql Driver.

Definition DB_NAME : string := "myapp.db".

Definition info_name (r : info_row) : string :=
  match r with (_, name, _, _, _, _) => name end.

Definition _get_existing_columns (e : engine) (table_name : string)
    : M (gset string) :=
  found ← select_master_name e table_name;
  match head found with
  | None => mret ∅
  | Some _ =>
      rows ← pragma_table_info e table_name;
      mret (list_to_set (info_name <$> rows))
  end.

Definition _table_exists (e : engine) (table_name : string) : M bool :=
  found ← select_master_one e table_name;
  mret (bool_decide (head found ≠ None)).

Definition pk_column (n : string) : column :=
  Column n "INTEGER" false false true NoDefault.

Definition text_not_null (n : string) : column :=
  Column n "TEXT" true false false NoDefault.

Definition text_column (n : string) : column :=
  Column n "TEXT" false false false NoDefault.

Definition notes_columns : list column :=
  [ pk_column "id"; text_not_null "title"; text_not_null "content";
    text_not_null "created_at"; text_not_null "updated_at" ].

Definition add_if_missing (e : engine) (existing_cols : gset string)
    (c : string) : M unit :=
  if bool_decide (c ∉ existing_cols)
  then execute_ddl e (add_column "notes" (text_column c))
  else mret tt.

Definition _ensure_notes_schema (e : engine) : M unit :=
  present ← _table_exists e "notes";
  if negb present
  then execute_ddl e
         (λ d, inr (create_table_if_not_exists "notes" notes_columns d))
  else
    existing_cols ← _get_existing_columns e "notes";
    add_if_missing e existing_cols "title";;
    add_if_missing e existing_cols "content";;
    add_if_missing e existing_cols "created_at";;
    add_if_missing e existing_cols "updated_at".

Definition app_info_columns : list column :=
  [ pk_column "id";
    Column "key" "TEXT" true true false NoDefault;
    Column "value" "TEXT" false false false NoDefault;
    Column "created_at" "TIMESTAMP" false false false CurrentTimestamp ].

Definition users_columns : list column :=
  [ pk_column "id";
    Column "username" "TEXT" true true false NoDefault;
    Column "email" "TEXT" true true false NoDefault;
    Column "created_at" "TIMESTAMP" false false false CurrentTimestamp ].

Definition seed (e : engine) (k v : string) : M unit :=
  execute_insert e "app_info" [("key", k); ("value", v)].

Definition seeds : list (string * string) :=
  [ ("project_name", "database"); ("version", "0.1.0");
    ("author", "John Doe"); ("description", "") ].

(** Lines 114 to 162: the statements issued on the main connection. *)
Definition converge (e : engine) : M unit :=
  execute_ddl e
    (λ d, inr (create_table_if_not_exists "app_info" app_info_columns d));;
  execute_ddl e
    (λ d, inr (create_table_if_not_exists "users" users_columns d));;
  _ensure_notes_schema e;;
  seed e "project_name" "database";;
  seed e "version" "0.1.0";;
  seed e "author" "John Doe";;
  seed e "description" "";;
  commit e.

(** The database file as the script finds it. *)
Inductive file :=
| Absent
| Unopenable
| NotADatabase
| Database (d : db).

Definition db_exists (f : file) : bool :=
  match f with Absent => false | _ => true end.

(** [sqlite3.connect(DB_NAME)] *)
Definition open (d : db) : conn := Conn true d d false 0.

Definition connect (f : file) : exn + conn :=
  match f with
  | Absent => inr (open ∅)
  | Unopenable => inl (OperationalError "unable to open database file")
  | NotADatabase => inr (Conn false ∅ ∅ false 0)
  | Database d => inr (open d)
  end.

Definition exn_text (x : exn) : string :=
  match x with
  | OperationalError m | IntegrityError m | DatabaseError m => m
  end.

(** Lines 99 to 111: what the accessibility probe prints. *)
Definition probe (f : file) : list string :=
  if db_exists f then
    ("SQLite database already exists at " +:+ DB_NAME) ::
    match connect f with
    | inl x =>
        ["Warning: Database exists but may be corrupted: " +:+ exn_text x]
    | inr c =>
        match select_one c with
        | Ok _ _ => ["Database is accessible and working."]
        | Raise x _ =>
            ["Warning: Database exists but may be corrupted: "
               +:+ exn_text x]
        end
    end
  else ["Creating new SQLite database..."].

(** How the script ends: past the final commit, or with an exception
    that nothing catches. *)
Inductive ending :=
| Completed
| Uncaught (x : exn).

Record outcome := Outcome {
  console : list string;
  ending_of : ending;
  file_after : file
}.

(** Lines 96 to 162. *)
Definition main (e : engine) (f : file) : outcome :=
  let out := "Starting SQLite setup..." :: probe f in
  match connect f with
  | inl x => Outcome out (Uncaught x) f
  | inr c =>
      match converge e c with
      | Ok _ c' => Outcome out Completed (Database (disk c'))
      | Raise x c' =>
          Outcome out (Uncaught x)
            (if file_ok c' then Database (disk c') else f)
      end
  end.

End InitDb.

(** ** Observations on runs *)

Module Run.
Import Sql Driver InitDb.

(** The database a run commits, when the script reaches the end of its
    batch. *)
Definition run (e : engine) (d : db) : option db :=
  match converge e (open d) with
  | Ok _ c => Some (disk c)
  | Raise _ _ => None
  end.

(** What is durable when the script ends, however it ends. *)
Definition left_on_disk (e : engine) (d : db) : db :=
  match converge e (open d) with
  | Ok _ c => disk c
  | Raise _ c => disk c
  end.

(** Runs one after the other, each under its own clock and engine. *)
Fixpoint run_many (es : list engine) (d : db) : option db :=
  match es with
  | [] => Some d
  | e :: es' =>
      match run e d with
      | Some d' => run_many es' d'
      | None => None
      end
  end.

Definition schema (d : db) : gmap string (list column) := t_columns <$> d.

Definition rows_of (name : string) (d : db) : list row :=
  match d !! name with
  | Some t => t_rows t
  | None => []
  end.

Definition key_of (r : row) : option value := cells r !! "key".

Definition value_of (r : row) : option value := cells r !! "value".

Definition created_at_of (r : row) : option value := cells r !! "created_at".


Definition seed_keys : list (option value) :=
  (λ p, Some (VText (fst p))) <$> seeds.

Definition has_key (k : string) (r : row) : Prop := key_of r = Some (VText k).

#[export] Instance has_key_dec k r : Decision (has_key k r).
Proof. unfold has_key. apply _. Defined.

Definition unseeded (r : row) : Prop := key_of r ∉ seed_keys.

#[export] Instance unseeded_dec r : Decision (unseeded r).
Proof. unfold unseeded. apply _. Defined.

(** The engine reads the word notes, written bare, as the table notes. *)
Definition reads_notes (e : engine) : Prop :=
  reads_name e "notes" = Some "notes".

Definition no_fault (e : engine) : Prop := ∀ n, fault e n = false.


(** The columns of the notes descriptor that the migration path looks
    for. *)
Definition migrated_columns : list string :=
  ["title"; "content"; "created_at"; "updated_at"].

(** The effect of the schema statements, as functions on the database. *)
Definition add_text (c : string) (d : db) : db :=
  match add_column "notes" (text_column c) d with
  | inr d' => d'
  | inl _ => d
  end.

Definition add_missing (s : gset string) (d : db) (c : string) : db :=
  if bool_decide (c ∉ s) then add_text c d else d.

Definition migrate_notes (d : db) : db :=
  match d !! "notes" with
  | None => create_table_if_not_exists "notes" notes_columns d
  | Some t =>
      foldl (add_missing (list_to_set (col_names t))) d migrated_columns
  end.

Definition schema_phase (d : db) : db :=
  migrate_notes
    (create_table_if_not_exists "users" users_columns
       (create_table_if_not_exists "app_info" app_info_columns d)).

(** The pre-existing table [t] extended by the text columns [cs]. *)
Definition extend_notes (cs : list string) (t : table) : table :=
  Table (t_columns t ++ (text_column <$> cs))
        ((λ r, foldl (λ r c, add_cell c r) r cs) <$> t_rows t)
        (t_seq t).

Definition missing (t : table) : list string :=
  filter (λ c, c ∉ col_names t) migrated_columns.

(** The cells of a seeded row. *)
Definition seed_cells (k v now : string) : gmap string value :=
  <["key" := VText k]> (<["value" := VText v]>
    (<["created_at" := VText now]> ∅)).

Definition seed_row (i : Z) (k v now : string) : row :=
  Row i (seed_cells k v now).

(** [app_info] after one seeding statement on rows [rows] and sequence
    entry [s]. *)
Definition seeded_table (rows : list row) (s : Z) (k v now : string)
    : table :=
  let i := Z.max s (max_rowid rows) + 1 in
  Table app_info_columns
        (filter (λ r, ¬ has_key k r) rows ++ [seed_row i k v now]) i.


(** The rows of [app_info] after the four seeding statements, started on
    rows [rows] with [i] the largest rowid in use or ever handed out, at
    the clock readings [now1] to [now4]. *)
Definition seeded_rows (rows : list row) (i : Z)
    (now1 now2 now3 now4 : string) : list row :=
  filter unseeded rows ++
    [ seed_row (i + 1) "project_name" "database" now1;
      seed_row (i + 2) "version" "0.1.0" now2;
      seed_row (i + 3) "author" "John Doe" now3;
      seed_row (i + 4) "description" "" now4 ].

(** A connection in the schema phase: no transaction is open and the disk
    follows the connection. *)
Definition settled (w : db) (n : nat) : conn := Conn true w w false n.

(** The schema statements the script can issue. *)
Inductive script_ddl : (db → exn + db) → Prop :=
| ddl_create name cols :
    (name, cols) ∈ [("app_info", app_info_columns); ("users", users_columns);
                    ("notes", notes_columns)] →
    script_ddl (λ d, inr (create_table_if_not_exists name cols d))
| ddl_add c :
    c ∈ migrated_columns → script_ddl (add_column "notes" (text_column c)).

(** [triple P m Q R]: from a connection in [P], [m] returns in [Q] or
    raises in [R]. *)
Definition triple {A} (P : conn → Prop) (m : M A)
    (Q : A → conn → Prop) (R : conn → Prop) : Prop :=
  ∀ c, P c → match m c with Ok a c' => Q a c' | Raise _ c' => R c' end.

(** A predicate on what is durable, what the connection sees and whether
    a transaction is open. *)
Definition on (I : db → db → bool → Prop) (c : conn) : Prop :=
  I (disk c) (work c) (in_txn c).

End Run.

(** ** Worked scenarios *)

Module Scenario.
Import Sql Driver InitDb Run.

Definition word_char (a : ascii) : bool :=
  let n := nat_of_ascii a in
  ((48 <=? n) && (n <=? 57) || (65 <=? n) && (n <=? 90)
   || (97 <=? n) && (n <=? 122) || (n =? 95))%nat.

(** A parser that takes a run of letters, digits and underscores as a
    name, and no other text: a blank ends a word, so two words where one
    name is expected do not parse. *)
Definition plain_word (s : string) : option string :=
  match s with
  | EmptyString => None
  | _ => if forallb word_char (list_ascii_of_string s) then Some s else None
  end.

(** An engine without faults whose clock stands still. *)
Definition still (now : string) : engine :=
  Engine (λ _, now) (λ _, false) plain_word.

Definition noon : engine := still "2026-11-04 12:00:00".

Definition later : engine := still "2026-11-05 09:30:00".

(** Section 8 of the specification: notes with only (id, title) and one
    row. *)
Definition old_note : row := Row 1 {["title" := VText "groceries"]}.

Definition old_notes : table :=
  Table [pk_column "id"; text_column "title"] [old_note] 1.

Definition old_db : db := {["notes" := old_notes]}.

(** A notes table without the id column. *)
Definition keyless_db : db :=
  {["notes" := Table [text_column "title"] [] 0]}.

(** An [app_info] table that is not the one the script creates. *)
Definition foreign_db : db :=
  {["app_info" := Table [pk_column "id"] [] 0]}.





(** A table whose name is two words. *)
Definition spaced_db : db :=
  {["my notes" := Table [text_column "title"] [] 0]}.

End Scenario.

(** ** The statistics read after the commit *)

Module Report.
Import Sql Driver InitDb.

Definition lower (a : ascii) : ascii :=
  let n := nat_of_ascii a in
  if ((65 <=? n) && (n <=? 90))%nat then ascii_of_nat (n + 32) else a.

(** [name LIKE 'sqlite_%'].  LIKE ignores the case of ASCII letters, the
    underscore stands for any one character and the percent sign for any
    run of characters: the pattern takes every name of seven characters
    or more that starts with the six letters of sqlite. *)
Definition like_sqlite_ (name : string) : bool :=
  match list_ascii_of_string name with
  | a1 :: a2 :: a3 :: a4 :: a5 :: a6 :: _ :: _ =>
      bool_decide (lower <$> [a1; a2; a3; a4; a5; a6]
                   = list_ascii_of_string "sqlite")
  | _ => false
  end.

Definition counted (name : string) : Prop := like_sqlite_ name = false.

#[export] Instance counted_dec name : Decision (counted name).
Proof. unfold counted. apply _. Defined.

(** [SELECT COUNT( * ) FROM sqlite_master WHERE type='table' AND name NOT
    LIKE 'sqlite_%'] *)
Definition count_tables (e : engine) : M nat :=
  bind (begin_statement e) (λ _,
  bind get_work (λ d, ret (size (filter counted (dom d))))).

(** [SELECT COUNT( * ) FROM name] *)
Definition count_rows (e : engine) (name : string) : M nat :=
  bind (begin_statement e) (λ _ c,
    match work c !! name with
    | None => Raise (OperationalError ("no such table: " +:+ name)) c
    | Some t => Ok (length (t_rows t)) c
    end).

(** Lines 164 to 171: the table count and the record count. *)
Definition statistics (e : engine) : M (nat * nat) :=
  table_count ← count_tables e;
  record_count ← count_rows e "app_info";
  mret (table_count, record_count).

(** Lines 114 to 171, on the main connection. *)
Definition session (e : engine) : M (nat * nat) :=
  converge e;; statistics e.

(** The statistics a run prints, when it gets that far. *)
Definition stats (e : engine) (d : db) : option (nat * nat) :=
  match session e (open d) with
  | Ok s _ => Some s
  | Raise _ _ => None
  end.

(** The three tables the script manages. *)
Definition managed : gset string := {["app_info"; "users"; "notes"]}.

End Report.

(** ** The driver, statement by statement *)

Module DriverFacts.
Import Sql Driver InitDb Run.

Lemma bind_Ok {A B} (m : M A) (f : A → M B) c b c2 :
  (m ≫= f) c = Ok b c2 → ∃ a c1, m c = Ok a c1 ∧ f a c1 = Ok b c2.
Proof.
  unfold mbind, M_bind, bind. destruct (m c) as [a c1|x c1]; [|done].
  intros H. by exists a, c1.
Qed.

Lemma bind_Raise {A B} (m : M A) (f : A → M B) c x c2 :
  (m ≫= f) c = Raise x c2 →
  m c = Raise x c2 ∨ ∃ a c1, m c = Ok a c1 ∧ f a c1 = Raise x c2.
Proof.
  unfold mbind, M_bind, bind. destruct (m c) as [a c1|y c1].
  - intros H. right. by exists a, c1.
  - intros [= -> ->]. left. reflexivity.
Qed.

Lemma begin_statement_Ok e c i c' :
  begin_statement e c = Ok i c' →
  file_ok c = true ∧ fault e (pc c) = false ∧ i = pc c ∧
  c' = Conn true (disk c) (work c) (in_txn c) (S (pc c)).
Proof.
  unfold begin_statement. destruct (file_ok c); simpl; [|done].
  destruct (fault e (pc c)); [done|]. by intros [= <- <-].
Qed.

Lemma begin_statement_Raise e c x c' :
  begin_statement e c = Raise x c' →
  c' = Conn (file_ok c) (disk c) (work c) (in_txn c) (S (pc c)).
Proof.
  unfold begin_statement. destruct (file_ok c); simpl.
  - destruct (fault e (pc c)); [|done]. by intros [= _ <-].
  - by intros [= _ <-].
Qed.

Lemma begin_statement_run e c :
  file_ok c = true → fault e (pc c) = false →
  begin_statement e c =
    Ok (pc c) (Conn true (disk c) (work c) (in_txn c) (S (pc c))).
Proof. intros Hf Hn. unfold begin_statement. by rewrite Hf, Hn. Qed.

Lemma execute_ddl_Ok e stmt c u c' :
  execute_ddl e stmt c = Ok u c' →
  file_ok c = true ∧ fault e (pc c) = false ∧
  ∃ d', stmt (work c) = inr d' ∧
        c' = Conn true (if in_txn c then disk c else d') d'
                  (in_txn c) (S (pc c)).
Proof.
  unfold execute_ddl, bind.
  destruct (begin_statement e c) as [i c1|] eqn:Hb; [|done].
  apply begin_statement_Ok in Hb as (Hf & Hn & -> & ->). simpl.
  destruct (stmt (work c)) as [|d'] eqn:Hs; [done|].
  intros [= <-]. repeat split; [done..|]. by exists d'.
Qed.

Lemma execute_insert_Ok e name assigns c u c' :
  execute_insert e name assigns c = Ok u c' →
  file_ok c = true ∧ fault e (pc c) = false ∧
  ∃ d', insert_step (clock e (pc c)) name assigns (work c) = inr d' ∧
        c' = Conn true (disk c) d' true (S (pc c)).
Proof.
  unfold execute_insert, bind.
  destruct (begin_statement e c) as [i c1|] eqn:Hb; [|done].
  apply begin_statement_Ok in Hb as (Hf & Hn & -> & ->). simpl.
  destruct (insert_prepare name assigns (work c)); [done|].
  destruct (insert_step _ _ _ _) as [|d'] eqn:Hs; [done|].
  intros [= <-]. repeat split; [done..|]. by exists d'.
Qed.

Lemma commit_Ok e c u c' :
  commit e c = Ok u c' →
  if in_txn c
  then c' = Conn true (work c) (work c) false (S (pc c))
  else c' = c.
Proof.
  unfold commit, bind. destruct (in_txn c) eqn:Ht; [|by intros [= <-]].
  destruct (begin_statement e c) as [i c1|] eqn:Hb; [|done].
  apply begin_statement_Ok in Hb as (Hf & Hn & -> & ->). simpl.
  by intros [= <-].
Qed.

Lemma _table_exists_Ok e name c b c' :
  _table_exists e name c = Ok b c' →
  b = bool_decide (is_Some (work c !! name)) ∧
  c' = Conn true (disk c) (work c) (in_txn c) (S (pc c)).
Proof.
  unfold _table_exists, select_master_one. intros H.
  apply bind_Ok in H as (found & c1 & H & Hr).
  unfold bind in H.
  destruct (begin_statement e c) as [i c2|] eqn:Hb; [|done].
  apply begin_statement_Ok in Hb as (Hf & Hn & -> & ->).
  unfold get_work, ret in H. simpl in H. injection H as <- <-.
  unfold mret, M_ret, ret in Hr. injection Hr as <- <-.
  split; [|done]. unfold master_rows.
  by destruct (work c !! name).
Qed.

Lemma info_names name (d : db) :
  info_name <$> table_info name d =
    match d !! name with Some t => col_names t | None => [] end.
Proof.
  unfold table_info, col_names. destruct (d !! name) as [t|]; [|done].
  rewrite fmap_imap. rewrite <- (imap_const c_name). by apply imap_ext.
Qed.

Lemma select_master_name_Ok e name c found c' :
  select_master_name e name c = Ok found c' →
  found = master_rows name (work c) ∧
  c' = Conn true (disk c) (work c) (in_txn c) (S (pc c)).
Proof.
  unfold select_master_name, bind.
  destruct (begin_statement e c) as [i c2|] eqn:Hb; [|done].
  apply begin_statement_Ok in Hb as (Hf & Hn & -> & ->).
  unfold get_work, ret. simpl. by intros [= <- <-].
Qed.

Lemma pragma_table_info_Ok e text c rows c' :
  pragma_table_info e text c = Ok rows c' →
  ∃ n, reads_name e text = Some n ∧ rows = table_info n (work c) ∧
       c' = Conn true (disk c) (work c) (in_txn c) (S (pc c)).
Proof.
  unfold pragma_table_info, bind.
  destruct (begin_statement e c) as [i c2|] eqn:Hb; [|done].
  apply begin_statement_Ok in Hb as (Hf & Hn & -> & ->).
  destruct (reads_name e text) as [n|]; [|done].
  unfold get_work, ret. simpl. intros [= <- <-]. by exists n.
Qed.

Lemma _get_existing_columns_Ok e name c s c' :
  _get_existing_columns e name c = Ok s c' →
  match work c !! name with
  | None =>
      s = ∅ ∧ c' = Conn true (disk c) (work c) (in_txn c) (S (pc c))
  | Some t =>
      ∃ n, reads_name e name = Some n ∧
           s = list_to_set (info_name <$> table_info n (work c)) ∧
           c' = Conn true (disk c) (work c) (in_txn c) (S (S (pc c)))
  end.
Proof.
  unfold _get_existing_columns. intros H.
  apply bind_Ok in H as (found & c1 & H & Hr).
  apply select_master_name_Ok in H as [-> ->].
  unfold master_rows in Hr. destruct (work c !! name) as [t|]; simpl in Hr.
  - apply bind_Ok in Hr as (rows & c3 & Hp & Hr).
    unfold mret, M_ret, ret in Hr. injection Hr as <- <-.
    apply pragma_table_info_Ok in Hp as (n & Hn & -> & ->). by exists n.
  - unfold mret, M_ret, ret in Hr. by injection Hr as <- <-.
Qed.

End DriverFacts.

(** ** The schema statements *)

Module SchemaFacts.
Import Sql Driver InitDb Run DriverFacts.

Lemma col_names_extend cs t :
  col_names (extend_notes cs t) = col_names t ++ cs.
Proof.
  unfold col_names, extend_notes. simpl. rewrite fmap_app. f_equal.
  induction cs as [|c cs IH]; [done|]. rewrite !fmap_cons. by f_equal.
Qed.

Lemma extend_notes_nil t : extend_notes [] t = t.
Proof.
  destruct t as [cols rows s]. unfold extend_notes. simpl.
  rewrite app_nil_r. f_equal. by rewrite list_fmap_id.
Qed.

Lemma extend_notes_app cs c t :
  extend_notes [c] (extend_notes cs t) = extend_notes (cs ++ [c]) t.
Proof.
  unfold extend_notes. simpl. rewrite fmap_app, <- app_assoc. f_equal.
  rewrite <- list_fmap_compose. apply list_fmap_ext. intros _ r _. simpl.
  by rewrite foldl_app.
Qed.

Lemma add_column_notes c (d : db) t :
  d !! "notes" = Some t → c ∉ col_names t →
  add_column "notes" (text_column c) d
    = inr (<["notes" := extend_notes [c] t]> d).
Proof.
  intros Ht Hc. unfold add_column. rewrite Ht. simpl.
  by rewrite bool_decide_eq_false_2.
Qed.

Lemma foldl_add_missing cs t0 added (d : db) :
  d !! "notes" = Some (extend_notes added t0) →
  NoDup cs → (∀ c, c ∈ cs → c ∉ added) →
  foldl (add_missing (list_to_set (col_names t0))) d cs
    = <["notes" :=
          extend_notes (added ++ filter (λ c, c ∉ col_names t0) cs) t0]> d.
Proof.
  revert added d. induction cs as [|c cs IH]; intros added d Hd Hnd Hfresh.
  - simpl. rewrite app_nil_r. by rewrite insert_id.
  - apply NoDup_cons in Hnd as [Hc Hnd]. simpl. unfold add_missing at 2.
    destruct (decide (c ∈ col_names t0)) as [Hin|Hin].
    + rewrite bool_decide_eq_false_2
        by (intros H; apply H; by apply elem_of_list_to_set).
      rewrite filter_cons_False by (by intros ?).
      apply IH; [done..|]. intros c' Hc'. apply Hfresh. by right.
    + rewrite bool_decide_eq_true_2 by (by rewrite elem_of_list_to_set).
      rewrite filter_cons_True by done.
      unfold add_text. rewrite (add_column_notes c d _ Hd).
      2:{ rewrite col_names_extend. rewrite elem_of_app. intros [?|?]; [done|].
          eapply Hfresh; [|done]. by left. }
      rewrite extend_notes_app.
      rewrite (IH (added ++ [c])); [| by rewrite lookup_insert_eq |done |].
      * rewrite insert_insert_eq. by rewrite <- app_assoc.
      * intros c' Hc'. rewrite elem_of_app, list_elem_of_singleton.
        intros [?|Heq]; [|by subst c']. eapply Hfresh; [|done]. by right.
Qed.

(** The migration of an existing notes table, in closed form. *)
Lemma migrate_notes_existing (d : db) t :
  d !! "notes" = Some t →
  migrate_notes d = <["notes" := extend_notes (missing t) t]> d.
Proof.
  intros Ht. unfold migrate_notes. rewrite Ht.
  rewrite (foldl_add_missing _ t []).
  - done.
  - by rewrite extend_notes_nil.
  - unfold migrated_columns. compute_done.
  - intros c _. apply not_elem_of_nil.
Qed.

Lemma migrate_notes_absent (d : db) :
  d !! "notes" = None →
  migrate_notes d = <["notes" := Table notes_columns [] 0]> d.
Proof.
  intros Ht. unfold migrate_notes, create_table_if_not_exists.
  by rewrite Ht.
Qed.

Lemma migrate_notes_other (d : db) name :
  name ≠ "notes" → migrate_notes d !! name = d !! name.
Proof.
  intros Hne. destruct (d !! "notes") as [t|] eqn:Ht.
  - rewrite (migrate_notes_existing d t Ht). by rewrite lookup_insert_ne.
  - rewrite (migrate_notes_absent d Ht). by rewrite lookup_insert_ne.
Qed.

Lemma create_lookup name cols (d : db) n :
  create_table_if_not_exists name cols d !! n =
    if decide (n = name)
    then Some (default (Table cols [] 0) (d !! name))
    else d !! n.
Proof.
  unfold create_table_if_not_exists.
  destruct (d !! name) as [t|] eqn:Ht; case_decide; subst; simpl.
  - done.
  - done.
  - by rewrite lookup_insert_eq.
  - by rewrite lookup_insert_ne.
Qed.

End SchemaFacts.

(** ** The script, when it reaches its commit *)

Module ScriptFacts.
Import Sql Driver InitDb Run DriverFacts SchemaFacts.

Lemma create_Ok e name cols w n u c' :
  execute_ddl e (λ d, inr (create_table_if_not_exists name cols d))
    (settled w n) = Ok u c' →
  c' = settled (create_table_if_not_exists name cols w) (S n).
Proof.
  intros H. by apply execute_ddl_Ok in H as (_ & _ & d' & [= <-] & ->).
Qed.

Lemma add_if_missing_Ok e s c w n u c' :
  add_if_missing e s c (settled w n) = Ok u c' →
  ∃ n', c' = settled (add_missing s w c) n'.
Proof.
  unfold add_if_missing, add_missing, add_text. case_bool_decide.
  - intros Hx. apply execute_ddl_Ok in Hx as (_ & _ & d' & Hd & ->).
    simpl in Hd. rewrite Hd. by eexists.
  - intros [= <-]. by eexists.
Qed.

Lemma _ensure_notes_schema_Ok e w n u c' :
  reads_notes e →
  _ensure_notes_schema e (settled w n) = Ok u c' →
  ∃ n', c' = settled (migrate_notes w) n'.
Proof.
  intros He H. unfold _ensure_notes_schema in H.
  apply bind_Ok in H as (present & c1 & H1 & H).
  apply _table_exists_Ok in H1 as [-> ->]. simpl in H.
  unfold migrate_notes. destruct (w !! "notes") as [t|] eqn:Ht; simpl in H.
  - apply bind_Ok in H as (s & c2 & H2 & H).
    apply _get_existing_columns_Ok in H2. simpl in H2. rewrite Ht in H2.
    destruct H2 as (n0 & Hn0 & -> & ->).
    rewrite He in Hn0. injection Hn0 as <-.
    rewrite info_names, Ht in H.
    apply bind_Ok in H as (? & c3 & H3 & H).
    apply (add_if_missing_Ok e _ _ w) in H3 as [n3 ->].
    apply bind_Ok in H as (? & c4 & H4 & H).
    apply add_if_missing_Ok in H4 as [n4 ->].
    apply bind_Ok in H as (? & c5 & H5 & H).
    apply add_if_missing_Ok in H5 as [n5 ->].
    apply add_if_missing_Ok in H as [n6 ->].
    by exists n6.
  - apply create_Ok in H as ->. by eexists.
Qed.

(** A run that reaches its commit has run the schema statements, then the
    four seeding statements, each at its own clock reading, and has made
    the result durable. *)
Lemma converge_Ok e d u c' :
  reads_notes e →
  converge e (open d) = Ok u c' →
  ∃ n d1 d2 d3 d4,
    insert_step (clock e n) "app_info"
      [("key", "project_name"); ("value", "database")] (schema_phase d)
      = inr d1 ∧
    insert_step (clock e (S n)) "app_info"
      [("key", "version"); ("value", "0.1.0")] d1 = inr d2 ∧
    insert_step (clock e (S (S n))) "app_info"
      [("key", "author"); ("value", "John Doe")] d2 = inr d3 ∧
    insert_step (clock e (S (S (S n)))) "app_info"
      [("key", "description"); ("value", "")] d3 = inr d4 ∧
    disk c' = d4.
Proof.
  intros He H. unfold converge in H.
  apply bind_Ok in H as (? & c1 & H1 & H).
  apply (create_Ok e _ _ d 0%nat) in H1 as ->.
  apply bind_Ok in H as (? & c2 & H2 & H).
  apply create_Ok in H2 as ->.
  apply bind_Ok in H as (? & c3 & H3 & H).
  apply (_ensure_notes_schema_Ok e _ _ _ _ He) in H3 as [n ->].
  fold (schema_phase d) in H.
  apply bind_Ok in H as (? & c4 & H4 & H).
  apply execute_insert_Ok in H4 as (_ & _ & d1 & Hd1 & ->).
  apply bind_Ok in H as (? & c5 & H5 & H).
  apply execute_insert_Ok in H5 as (_ & _ & d2 & Hd2 & ->).
  apply bind_Ok in H as (? & c6 & H6 & H).
  apply execute_insert_Ok in H6 as (_ & _ & d3 & Hd3 & ->).
  apply bind_Ok in H as (? & c7 & H7 & H).
  apply execute_insert_Ok in H7 as (_ & _ & d4 & Hd4 & ->).
  apply commit_Ok in H. simpl in *. subst c'.
  by exists n, d1, d2, d3, d4.
Qed.

End ScriptFacts.

(** ** The seeding statements *)

Module SeedFacts.
Import Sql Driver InitDb Run DriverFacts SchemaFacts ScriptFacts.

Lemma new_cells_seed now k v :
  new_cells now [("key", k); ("value", v)] app_info_columns
    = seed_cells k v now.
Proof. reflexivity. Qed.

Lemma conflicts_seed now k v r :
  conflicts app_info_columns (seed_cells k v now) r = false ↔ ¬ has_key k r.
Proof.
  unfold conflicts, has_key, key_of, seed_cells. simpl.
  rewrite lookup_insert_eq, orb_false_r.
  rewrite (bool_decide_eq_true_2 (VText k ≠ VNull)) by done. simpl.
  by rewrite bool_decide_eq_false.
Qed.

Lemma seed_prepare k v (d : db) t :
  d !! "app_info" = Some t → t_columns t = app_info_columns →
  insert_prepare "app_info" [("key", k); ("value", v)] d = None.
Proof.
  intros Hd Hc. unfold insert_prepare, col_names. by rewrite Hd, Hc.
Qed.

(** One seeding statement on the table the script creates: the rows that
    hold the key go, a fresh row with the next rowid is appended. *)
Lemma seed_step now k v (d : db) rows s :
  d !! "app_info" = Some (Table app_info_columns rows s) →
  insert_step now "app_info" [("key", k); ("value", v)] d
    = inr (<["app_info" := seeded_table rows s k v now]> d).
Proof.
  intros Hd. unfold insert_step. rewrite Hd. simpl t_columns.
  rewrite new_cells_seed.
  replace (existsb _ app_info_columns) with false by reflexivity.
  replace (existsb _ app_info_columns) with false.
  2:{ unfold seed_cells. simpl. by rewrite bool_decide_eq_false_2. }
  unfold seeded_table, seed_row, next_rowid. simpl.
  do 3 f_equal. f_equal. apply list_filter_iff. intros r.
  apply (conflicts_seed now k v).
Qed.










End SeedFacts.

(** ** Invariants of the driver, on both exits *)

Module Triples.
Import Sql Driver InitDb Run DriverFacts SchemaFacts ScriptFacts.

Lemma triple_bind {A B} P (m : M A) (f : A → M B) Q Q' R :
  triple P m Q R → (∀ a, triple (Q a) (f a) Q' R) →
  triple P (m ≫= f) Q' R.
Proof.
  intros Hm Hf c Hc. specialize (Hm c Hc).
  unfold mbind, M_bind, bind. destruct (m c) as [a c1|x c1]; [|done].
  by apply Hf.
Qed.

Lemma triple_ret {A} (P : conn → Prop) (a : A) (Q : A → conn → Prop) R :
  (∀ c, P c → Q a c) → triple P (mret a) Q R.
Proof. intros H c Hc. by apply H. Qed.

Lemma triple_weaken {A} (P P' : conn → Prop) (m : M A)
    (Q Q' : A → conn → Prop) (R R' : conn → Prop) :
  triple P' m Q' R' →
  (∀ c, P c → P' c) → (∀ a c, Q' a c → Q a c) → (∀ c, R' c → R c) →
  triple P m Q R.
Proof.
  intros H HP HQ HR c Hc. specialize (H c (HP c Hc)).
  destruct (m c); auto.
Qed.

Lemma begin_statement_triple e I :
  triple (on I) (begin_statement e) (λ _, on I) (on I).
Proof.
  intros c Hc. unfold begin_statement.
  destruct (negb (file_ok c)); [done|]. by destruct (fault e (pc c)).
Qed.

Lemma select_master_one_triple e name I :
  triple (on I) (select_master_one e name) (λ _, on I) (on I).
Proof.
  unfold select_master_one, bind. intros c Hc.
  pose proof (begin_statement_triple e I c Hc) as H.
  by destruct (begin_statement e c).
Qed.

Lemma _table_exists_triple e name I :
  triple (on I) (_table_exists e name) (λ _, on I) (on I).
Proof.
  unfold _table_exists.
  eapply triple_bind; [apply select_master_one_triple|].
  intros found. by apply triple_ret.
Qed.

Lemma _get_existing_columns_triple e name I :
  triple (on I) (_get_existing_columns e name) (λ _, on I) (on I).
Proof.
  unfold _get_existing_columns.
  apply (triple_bind _ _ _ (λ _, on I)).
  - unfold select_master_name, bind. intros c Hc.
    pose proof (begin_statement_triple e I c Hc) as H.
    by destruct (begin_statement e c).
  - intros found. destruct (head found); [|by apply triple_ret].
    apply (triple_bind _ _ _ (λ _, on I)); [|intros; by apply triple_ret].
    unfold pragma_table_info, bind. intros c Hc.
    pose proof (begin_statement_triple e I c Hc) as H.
    destruct (begin_statement e c) as [i c1|]; [|done].
    by destruct (reads_name e name).
Qed.

(** A schema statement: [J] must hold after the statement has run, with
    the disk following the connection unless a transaction is open. *)
Lemma execute_ddl_triple e stmt (I J K : db → db → bool → Prop) :
  (∀ dk w t, I dk w t → K dk w t) →
  (∀ dk w t w', I dk w t → stmt w = inr w' →
                J (if t then dk else w') w' t) →
  triple (on I) (execute_ddl e stmt) (λ _, on J) (on K).
Proof.
  intros HK HJ c Hc. unfold execute_ddl, bind.
  pose proof (begin_statement_triple e I c Hc) as H.
  destruct (begin_statement e c) as [i c1|]; [|by apply HK].
  destruct (stmt (work c1)) eqn:Hs; [by apply HK|].
  unfold on in *. simpl. by eapply HJ.
Qed.

(** A seeding statement: it may raise before or after the transaction is
    opened. *)
Lemma execute_insert_triple e name assigns
    (I J K : db → db → bool → Prop) :
  (∀ dk w t, I dk w t → K dk w t ∧ K dk w true) →
  (∀ dk w t w' now, I dk w t →
     insert_prepare name assigns w = None →
     insert_step now name assigns w = inr w' → J dk w' true) →
  triple (on I) (execute_insert e name assigns) (λ _, on J) (on K).
Proof.
  intros HK HJ c Hc. unfold execute_insert, bind.
  pose proof (begin_statement_triple e I c Hc) as H.
  destruct (begin_statement e c) as [i c1|]; [|by apply HK].
  destruct (insert_prepare _ _ _) eqn:Hp; [by apply HK|].
  destruct (insert_step _ _ _ _) eqn:Hs; [by apply (HK _ _ _ H)|].
  unfold on in *. simpl. by eapply HJ.
Qed.

Lemma commit_triple e (I J K : db → db → bool → Prop) :
  (∀ dk w t, I dk w t → K dk w t) →
  (∀ dk w, I dk w false → J dk w false) →
  (∀ dk w, I dk w true → J w w false) →
  triple (on I) (commit e) (λ _, on J) (on K).
Proof.
  intros HK HJ0 HJ1 c Hc. unfold commit.
  destruct (in_txn c) eqn:Ht.
  - unfold bind. pose proof (begin_statement_triple e I c Hc) as H.
    destruct (begin_statement e c) as [i c1|] eqn:Hb;
      [|exact (HK _ _ _ H)].
    apply begin_statement_Ok in Hb as (_ & _ & _ & ->).
    unfold on in *. simpl in *. rewrite Ht in *. by eapply HJ1.
  - unfold on in *. rewrite Ht in *. by apply HJ0.
Qed.

End Triples.

(** ** Invariants of the script *)

Module ScriptTriples.
Import Sql Driver InitDb Run DriverFacts SchemaFacts ScriptFacts Triples.

Ltac in_list := unfold migrated_columns, seeds; repeat constructor.

Section Phases.
Context (e : engine).
Context (I1 I2 Q : db → db → bool → Prop).
Hypothesis ddl_keeps : ∀ stmt dk w t w',
  script_ddl stmt → I1 dk w t → stmt w = inr w' →
  I1 (if t then dk else w') w' t.
Hypothesis phase_change : ∀ dk w t, I1 dk w t → I2 dk w t.
Hypothesis begin_keeps : ∀ dk w t, I2 dk w t → I2 dk w true.
Hypothesis seed_keeps : ∀ dk w t w' now k v,
  (k, v) ∈ seeds → I2 dk w t →
  insert_step now "app_info" [("key", k); ("value", v)] w = inr w' →
  I2 dk w' true.
Hypothesis commit_gives : ∀ dk w, I2 dk w true → Q w w false.

Lemma add_if_missing_triple s c :
  c ∈ migrated_columns →
  triple (on I1) (add_if_missing e s c) (λ _, on I1) (on I2).
Proof.
  intros Hc. unfold add_if_missing. case_bool_decide.
  - apply execute_ddl_triple; [done|]. intros dk w t w' HI Hs.
    eapply ddl_keeps; [|done..]. by constructor.
  - by apply triple_ret.
Qed.

Lemma _ensure_notes_schema_triple :
  triple (on I1) (_ensure_notes_schema e) (λ _, on I1) (on I2).
Proof.
  unfold _ensure_notes_schema.
  apply (triple_bind _ _ _ (λ _, on I1)).
  { eapply triple_weaken; [apply (_table_exists_triple e "notes" I1)|..];
      unfold on; eauto. }
  intros present. destruct (negb present).
  - apply execute_ddl_triple; [done|]. intros dk w t w' HI Hs.
    eapply (ddl_keeps (λ d, inr _)); [|done..].
    apply (ddl_create "notes" notes_columns). in_list.
  - apply (triple_bind _ _ _ (λ _, on I1)).
    { eapply triple_weaken;
        [apply (_get_existing_columns_triple e "notes" I1)|..];
        unfold on; eauto. }
    intros s.
    apply (triple_bind _ _ _ (λ _, on I1));
      [apply add_if_missing_triple; in_list|intros ?].
    apply (triple_bind _ _ _ (λ _, on I1));
      [apply add_if_missing_triple; in_list|intros ?].
    apply (triple_bind _ _ _ (λ _, on I1));
      [apply add_if_missing_triple; in_list|intros ?].
    apply add_if_missing_triple; in_list.
Qed.

Lemma seed_triple k v (J : db → db → bool → Prop) :
  (k, v) ∈ seeds →
  (∀ dk w t, J dk w t → I2 dk w t) →
  triple (on J) (seed e k v)
    (λ _, on (λ dk w t, I2 dk w t ∧ t = true)) (on I2).
Proof.
  intros Hkv HJ. unfold seed.
  eapply triple_weaken;
    [apply (execute_insert_triple e _ _ I2
              (λ dk w t, I2 dk w t ∧ t = true) I2)|..];
    unfold on; eauto.
Qed.

(** The whole batch: the first invariant through the schema statements,
    the second through the seeding statements and at every exception. *)
Lemma converge_triple :
  triple (on I1) (converge e) (λ _, on Q) (on I2).
Proof.
  unfold converge.
  apply (triple_bind _ _ _ (λ _, on I1)).
  { apply execute_ddl_triple; [done|]. intros dk w t w' HI Hs.
    eapply (ddl_keeps (λ d, inr _)); [|done..].
    apply (ddl_create "app_info" app_info_columns). in_list. }
  intros ?. apply (triple_bind _ _ _ (λ _, on I1)).
  { apply execute_ddl_triple; [done|]. intros dk w t w' HI Hs.
    eapply (ddl_keeps (λ d, inr _)); [|done..].
    apply (ddl_create "users" users_columns). in_list. }
  intros ?. apply (triple_bind _ _ _ (λ _, on I1));
    [apply _ensure_notes_schema_triple|].
  intros ?. eapply triple_bind; [apply seed_triple; [in_list|done]|].
  intros ?. eapply triple_bind;
    [apply seed_triple; [in_list|by intros ??? [??]]|].
  intros ?. eapply triple_bind;
    [apply seed_triple; [in_list|by intros ??? [??]]|].
  intros ?. eapply triple_bind;
    [apply seed_triple; [in_list|by intros ??? [??]]|].
  intros ?. apply commit_triple.
  - by intros ??? [??].
  - by intros ?? [??].
  - intros ?? [??]. by eapply commit_gives.
Qed.

End Phases.

End ScriptTriples.

(** ** What the statements leave alone *)

Module Frames.
Import Sql Driver InitDb Run DriverFacts SchemaFacts ScriptFacts Triples.
Import ScriptTriples.

Lemma insert_step_shape now name assigns (w w' : db) :
  insert_step now name assigns w = inr w' →
  ∃ t rows' s',
    w !! name = Some t ∧ w' = <[name := Table (t_columns t) rows' s']> w.
Proof.
  unfold insert_step. destruct (w !! name) as [t|]; [|done].
  destruct (existsb _ _); [done|]. destruct (existsb _ _); [done|].
  intros [= <-]. by eexists _, _, _.
Qed.

Lemma script_ddl_other stmt (w w' : db) name t :
  script_ddl stmt → stmt w = inr w' →
  w !! name = Some t → name ≠ "notes" → w' !! name = Some t.
Proof.
  intros Hs Hw Ht Hne. destruct Hs as [n cols _|c _].
  - injection Hw as <-. rewrite create_lookup. case_decide; [|done].
    subst n. by rewrite Ht.
  - unfold add_column in Hw. destruct (w !! "notes"); [|done].
    case_bool_decide; [done|]. injection Hw as <-.
    by rewrite lookup_insert_ne.
Qed.

Lemma script_ddl_rows stmt (w w' : db) name :
  script_ddl stmt → stmt w = inr w' → name ≠ "notes" →
  rows_of name w' = rows_of name w.
Proof.
  intros Hs Hw Hne. unfold rows_of.
  destruct (w !! name) as [t|] eqn:Ht.
  - by rewrite (script_ddl_other stmt w w' name t).
  - destruct Hs as [n cols _|c _].
    + injection Hw as <-. rewrite create_lookup. case_decide; [|by rewrite Ht].
      subst n. by rewrite Ht.
    + unfold add_column in Hw. destruct (w !! "notes"); [|done].
      case_bool_decide; [done|]. injection Hw as <-.
      by rewrite lookup_insert_ne, Ht.
Qed.

(** Any property of the database that the script's statements keep holds
    of what the script leaves on disk, however it ends. *)
Lemma converge_keeps (Pdb : db → Prop) e d :
  (∀ stmt w w', script_ddl stmt → Pdb w → stmt w = inr w' → Pdb w') →
  (∀ now k v w w', (k, v) ∈ seeds → Pdb w →
     insert_step now "app_info" [("key", k); ("value", v)] w = inr w' →
     Pdb w') →
  Pdb d → Pdb (left_on_disk e d).
Proof.
  intros Hddl Hins Hd.
  pose (I := λ (dk w : db) (t : bool), Pdb dk ∧ Pdb w).
  assert (triple (on I) (converge e) (λ _, on I) (on I)) as H.
  { apply converge_triple; unfold I.
    - intros stmt dk w t w' Hs [??] Hw. split; [destruct t|]; eauto.
    - done.
    - done.
    - intros dk w t w' now k v Hkv [??] Hw. split; eauto.
    - intros dk w [??]. done. }
  specialize (H (open d) (conj Hd Hd)). unfold left_on_disk.
  destruct (converge e (open d)); apply H.
Qed.

End Frames.

(** ** Runs in closed form, and runs that cannot fail *)

Module Closed.
Import Sql Driver InitDb Run DriverFacts SchemaFacts ScriptFacts SeedFacts.



Lemma schema_phase_notes (d : db) :
  schema_phase d !! "notes"
    = Some match d !! "notes" with
           | Some t => extend_notes (missing t) t
           | None => Table notes_columns [] 0
           end.
Proof.
  unfold schema_phase.
  set (w := create_table_if_not_exists "users" users_columns _).
  assert (w !! "notes" = d !! "notes") as Hw
    by (unfold w; by rewrite !create_lookup).
  destruct (d !! "notes") as [t|] eqn:Ht.
  - rewrite (migrate_notes_existing w t) by done.
    by rewrite lookup_insert_eq.
  - rewrite (migrate_notes_absent w) by done. by rewrite lookup_insert_eq.
Qed.


Lemma bind_run {A B} (m : M A) (f : A → M B) c a c1 :
  m c = Ok a c1 → (m ≫= f) c = f a c1.
Proof. intros H. unfold mbind, M_bind, bind. by rewrite H. Qed.

Lemma execute_ddl_run e stmt w w' n :
  no_fault e → stmt w = inr w' →
  execute_ddl e stmt (settled w n) = Ok tt (settled w' (S n)).
Proof.
  intros Hnf Hs. unfold execute_ddl, bind, begin_statement. simpl.
  rewrite Hnf. simpl. by rewrite Hs.
Qed.

Lemma _table_exists_run e name w n :
  no_fault e →
  _table_exists e name (settled w n)
    = Ok (bool_decide (is_Some (w !! name))) (settled w (S n)).
Proof.
  intros Hnf. unfold _table_exists, select_master_one.
  unfold mbind, M_bind, bind, begin_statement. simpl. rewrite Hnf. simpl.
  unfold master_rows. by destruct (w !! name).
Qed.

Lemma _get_existing_columns_run e name w t n :
  no_fault e → reads_name e name = Some name → w !! name = Some t →
  _get_existing_columns e name (settled w n)
    = Ok (list_to_set (col_names t)) (settled w (S (S n))).
Proof.
  intros Hnf Hr Ht. unfold _get_existing_columns, select_master_name.
  unfold pragma_table_info.
  unfold mbind, M_bind, bind, begin_statement. simpl. rewrite Hnf. simpl.
  unfold master_rows. rewrite Ht. simpl. rewrite Hnf, Hr. simpl.
  unfold mret, M_ret, ret. by rewrite info_names, Ht.
Qed.

Lemma add_if_missing_run e t0 added c w n :
  no_fault e →
  w !! "notes" = Some (extend_notes added t0) → c ∉ added →
  ∃ n',
    add_if_missing e (list_to_set (col_names t0)) c (settled w n)
      = Ok tt (settled (add_missing (list_to_set (col_names t0)) w c) n') ∧
    add_missing (list_to_set (col_names t0)) w c !! "notes"
      = Some (extend_notes
                (added ++ filter (λ c, c ∉ col_names t0) [c]) t0).
Proof.
  intros Hnf Hw Hc. unfold add_if_missing, add_missing, add_text.
  destruct (decide (c ∈ col_names t0)) as [Hin|Hin].
  - rewrite bool_decide_eq_false_2
      by (intros H; apply H; by apply elem_of_list_to_set).
    rewrite filter_cons_False by (by intros ?).
    exists n. split; [done|]. by rewrite filter_nil, app_nil_r.
  - rewrite bool_decide_eq_true_2 by (by rewrite elem_of_list_to_set).
    rewrite filter_cons_True by done. rewrite filter_nil.
    assert (c ∉ col_names (extend_notes added t0)) as Hfresh.
    { rewrite col_names_extend, elem_of_app. tauto. }
    rewrite (add_column_notes c w _ Hw Hfresh).
    exists (S n). split.
    + apply execute_ddl_run; [done|]. by apply add_column_notes.
    + by rewrite lookup_insert_eq, extend_notes_app.
Qed.

Lemma not_in_added (c c' : string) (P : string → Prop)
    `{!∀ x, Decision (P x)} added :
  c ∉ added → c ≠ c' → c ∉ added ++ filter P [c'].
Proof.
  intros Ha Hne. rewrite elem_of_app, list_elem_of_filter.
  rewrite list_elem_of_singleton. tauto.
Qed.

Ltac fresh_column :=
  repeat (apply not_in_added; [|done]); apply not_elem_of_nil.

Lemma _ensure_notes_schema_run e w n :
  reads_notes e → no_fault e →
  ∃ n', _ensure_notes_schema e (settled w n)
          = Ok tt (settled (migrate_notes w) n').
Proof.
  intros He Hnf. unfold _ensure_notes_schema.
  rewrite (bind_run _ _ _ _ _ (_table_exists_run e "notes" w n Hnf)).
  unfold migrate_notes. destruct (w !! "notes") as [t|] eqn:Ht; simpl.
  - rewrite (bind_run _ _ _ _ _
               (_get_existing_columns_run e "notes" w t _ Hnf He Ht)).
    destruct (add_if_missing_run e t [] "title" w (S (S (S n))) Hnf)
      as (n1 & E1 & W1); [by rewrite extend_notes_nil|by intros ?%elem_of_nil|].
    rewrite (bind_run _ _ _ _ _ E1).
    destruct (add_if_missing_run e t _ "content" _ n1 Hnf W1)
      as (n2 & E2 & W2).
    { fresh_column. }
    rewrite (bind_run _ _ _ _ _ E2).
    destruct (add_if_missing_run e t _ "created_at" _ n2 Hnf W2)
      as (n3 & E3 & W3).
    { fresh_column. }
    rewrite (bind_run _ _ _ _ _ E3).
    destruct (add_if_missing_run e t _ "updated_at" _ n3 Hnf W3)
      as (n4 & E4 & W4).
    { fresh_column. }
    by exists n4.
  - exists (S (S n)). by apply execute_ddl_run.
Qed.

Lemma seed_run e k v dk w t rows s n :
  no_fault e →
  w !! "app_info" = Some (Table app_info_columns rows s) →
  seed e k v (Conn true dk w t n)
    = Ok tt (Conn true dk
               (<["app_info" := seeded_table rows s k v (clock e n)]> w)
               true (S n)).
Proof.
  intros Hnf Hw. unfold seed, execute_insert, bind, begin_statement. simpl.
  rewrite Hnf. simpl. rewrite (seed_prepare k v w _ Hw) by done.
  by rewrite (seed_step _ k v w rows s Hw).
Qed.



End Closed.

(** ** The effect of a run on each table *)

Module Effects.
Import Sql Driver InitDb Run DriverFacts SchemaFacts ScriptFacts SeedFacts.
Import Triples ScriptTriples Frames Closed.

Lemma schema_lookup (d : db) name :
  schema d !! name = t_columns <$> (d !! name).
Proof. unfold schema. apply lookup_fmap. Qed.

Lemma insert_step_columns now name assigns (w w' : db) n :
  insert_step now name assigns w = inr w' →
  schema w' !! n = schema w !! n.
Proof.
  intros (t & rows' & s' & Ht & ->)%insert_step_shape.
  rewrite !schema_lookup. destruct (decide (n = name)) as [->|Hne].
  - by rewrite lookup_insert_eq, Ht.
  - by rewrite lookup_insert_ne.
Qed.

Lemma insert_step_other now name assigns (w w' : db) n :
  insert_step now name assigns w = inr w' → n ≠ name → w' !! n = w !! n.
Proof.
  intros (t & rows' & s' & Ht & ->)%insert_step_shape Hne.
  by rewrite lookup_insert_ne.
Qed.

(** A committed run leaves every table but [app_info] as the schema
    statements left it. *)
Lemma run_other e d d' name :
  reads_notes e → run e d = Some d' → name ≠ "app_info" →
  d' !! name = schema_phase d !! name.
Proof.
  intros He Hrun Hne. unfold run in Hrun.
  destruct (converge e (open d)) as [u c'|] eqn:Hc; [|done].
  injection Hrun as <-.
  apply converge_Ok in Hc as (n & d1 & d2 & d3 & d4 & H1 & H2 & H3 & H4 & ->);
    [|done].
  rewrite (insert_step_other _ _ _ _ _ name H4) by done.
  rewrite (insert_step_other _ _ _ _ _ name H3) by done.
  rewrite (insert_step_other _ _ _ _ _ name H2) by done.
  by rewrite (insert_step_other _ _ _ _ _ name H1).
Qed.

(** Reading an extended notes table. *)
Lemma rowid_extended r cs :
  rowid (foldl (λ r c, add_cell c r) r cs) = rowid r.
Proof.
  revert r. induction cs as [|c cs IH]; intros r; [done|]. simpl.
  by rewrite IH.
Qed.

Lemma cells_extended r cs c :
  cells (foldl (λ r c, add_cell c r) r cs) !! c
    = if decide (c ∈ cs) then Some VNull else cells r !! c.
Proof.
  revert r. induction cs as [|c' cs IH]; intros r.
  - simpl. destruct (decide (c ∈ [])) as [H|H]; [|done].
    by apply elem_of_nil in H.
  - simpl. rewrite IH. destruct (decide (c ∈ cs)) as [Hin|Hin].
    + rewrite decide_True; [done|by right].
    + simpl. destruct (decide (c = c')) as [->|Hne].
      * rewrite lookup_insert_eq. rewrite decide_True; [done|by left].
      * rewrite lookup_insert_ne by done.
        rewrite decide_False; [done|].
        rewrite elem_of_cons. tauto.
Qed.

Lemma find_column_Some t c :
  c ∈ col_names t → ∃ col, find_column t c = Some col ∧ c_name col = c.
Proof.
  unfold col_names, find_column. induction (t_columns t) as [|col cols IH].
  - by intros ?%elem_of_nil.
  - rewrite fmap_cons, elem_of_cons. intros H. simpl.
    case_bool_decide as Hd; [by exists col|].
    destruct H as [->|H]; [done|]. by apply IH.
Qed.

Lemma find_column_None t c : c ∉ col_names t → find_column t c = None.
Proof.
  unfold col_names, find_column. induction (t_columns t) as [|col cols IH].
  - done.
  - rewrite fmap_cons, not_elem_of_cons. intros [Hne H]. simpl.
    rewrite bool_decide_eq_false_2 by done. by apply IH.
Qed.

Lemma find_app {A} (f : A → bool) l1 l2 :
  List.find f (l1 ++ l2)
    = match List.find f l1 with
      | Some x => Some x
      | None => List.find f l2
      end.
Proof.
  induction l1 as [|x l1 IH]; [done|]. simpl. by destruct (f x).
Qed.

Lemma find_column_extend_old t cs c :
  c ∈ col_names t → find_column (extend_notes cs t) c = find_column t c.
Proof.
  intros (col & Hf & _)%find_column_Some. unfold find_column in *.
  simpl. by rewrite find_app, Hf.
Qed.

Lemma find_column_extend_new t cs c :
  c ∉ col_names t → c ∈ cs →
  find_column (extend_notes cs t) c = Some (text_column c).
Proof.
  intros Hold Hnew. pose proof (find_column_None t c Hold) as Hf.
  unfold find_column in *. simpl. rewrite find_app, Hf.
  induction Hnew as [c cs|c c' cs _ IH]; simpl.
  - by rewrite bool_decide_eq_true_2.
  - case_bool_decide as Hd; [by subst c'|]. by apply IH.
Qed.

End Effects.

(** ** Schema claims *)

Import Sql Driver InitDb Run Scenario.
Import DriverFacts SchemaFacts ScriptFacts SeedFacts.
Import Triples ScriptTriples Frames Closed Effects.

Lemma left_on_disk_run e d d' : run e d = Some d' → left_on_disk e d = d'.
Proof.
  unfold run, left_on_disk. destruct (converge e (open d)); [|done].
  by intros [= <-].
Qed.

Lemma script_ddl_columns stmt (w w' : db) name :
  script_ddl stmt → stmt w = inr w' → name ≠ "notes" →
  schema w' !! name = schema w !! name ∨
  schema w !! name = None ∧
    ∃ cols, (name, cols) ∈ [("app_info", app_info_columns);
                            ("users", users_columns)] ∧
            schema w' !! name = Some cols.
Proof.
  intros Hs Hw Hne. rewrite !schema_lookup.
  destruct (w !! name) as [t|] eqn:Ht.
  { left. by rewrite (script_ddl_other stmt w w' name t). }
  destruct Hs as [n cols Hin|c _].
  - injection Hw as <-. rewrite create_lookup.
    destruct (decide (name = n)) as [->|Hn]; [|by left; rewrite Ht].
    right. split; [done|]. exists cols. rewrite Ht. split; [|done].
    apply elem_of_cons in Hin as [Hin|Hin]; [rewrite Hin; by left|].
    apply elem_of_cons in Hin as [Hin|Hin]; [rewrite Hin; by right; left|].
    apply list_elem_of_singleton in Hin. by injection Hin as -> ->.
  - left. unfold add_column in Hw. destruct (w !! "notes"); [|done].
    case_bool_decide; [done|]. injection Hw as <-.
    by rewrite lookup_insert_ne, Ht.
Qed.

(** C10. Only notes is migrated.  For either of the names app_info and
    users: a table of that name found before the run has the same
    columns, declared the same way, in what the run leaves on disk,
    however the run ends and whatever those columns are; where no such
    table was found, the run leaves none or the one it creates. *)
Theorem app_info_and_users_never_altered e d name cols :
  (name, cols) ∈ [("app_info", app_info_columns);
                  ("users", users_columns)] →
  match d !! name with
  | Some t => schema (left_on_disk e d) !! name = Some (t_columns t)
  | None =>
      schema (left_on_disk e d) !! name = None ∨
      schema (left_on_disk e d) !! name = Some cols
  end.
Proof.
  intros Hin.
  assert (name ≠ "notes") as Hne.
  { intros ->. apply elem_of_cons in Hin as [[=]|Hin].
    by apply list_elem_of_singleton in Hin. }
  assert (NoDup ["app_info"; "users"]) as Hnd by compute_done.
  pose (Pdb := λ w : db,
    schema w !! name = schema d !! name ∨
    schema d !! name = None ∧ schema w !! name = Some cols).
  assert (Pdb (left_on_disk e d)) as HP.
  { apply converge_keeps; unfold Pdb.
    - intros stmt w w' Hs HPw Hw.
      destruct (script_ddl_columns stmt w w' name Hs Hw Hne)
        as [->|(Hnone & cols' & Hin' & ->)]; [done|].
      destruct HPw as [Hsame|[_ Hsome]]; [|congruence].
      right. split; [congruence|]. f_equal.
      clear -Hin Hin'. 
      apply elem_of_cons in Hin as [Hin|Hin%list_elem_of_singleton];
      apply elem_of_cons in Hin' as [Hin'|Hin'%list_elem_of_singleton];
      congruence.
    - intros now k v w w' _ HPw Hw.
      by rewrite (insert_step_columns _ _ _ _ _ name Hw).
    - by left. }
  unfold Pdb in HP. rewrite (schema_lookup d) in HP.
  destruct (d !! name) as [t|]; simpl in HP.
  - destruct HP as [->|[[=] _]]. done.
  - destruct HP as [->|[_ ->]]; [by left|by right].
Qed.

Lemma app_info_and_users_never_altered_witness :
  ("app_info", app_info_columns)
    ∈ [("app_info", app_info_columns); ("users", users_columns)] ∧
  schema (left_on_disk noon foreign_db) !! "app_info"
    = Some [pk_column "id"].
Proof.
  split; [by left|].
  exact (app_info_and_users_never_altered noon foreign_db
           "app_info" app_info_columns
           (list_elem_of_here _ _)).
Defined.

(** What the run leaves of a notes table found before it: that table,
    extended by text columns it did not have. *)
Lemma notes_is_extended e d t :
  d !! "notes" = Some t →
  ∃ cs, (∀ c, c ∈ cs → c ∉ col_names t) ∧
        left_on_disk e d !! "notes" = Some (extend_notes cs t).
Proof.
  intros Ht.
  apply (converge_keeps
           (λ w, ∃ cs, (∀ c, c ∈ cs → c ∉ col_names t) ∧
                       w !! "notes" = Some (extend_notes cs t))).
  - intros stmt w w' Hs (cs & Hcs & Hw) Hstmt.
    destruct Hs as [n cols _|c _].
    + injection Hstmt as <-. exists cs. split; [done|].
      rewrite create_lookup. case_decide; [|done]. subst n. by rewrite Hw.
    + unfold add_column in Hstmt. rewrite Hw in Hstmt.
      case_bool_decide as Hc; [done|]. injection Hstmt as <-.
      simpl in Hc. rewrite col_names_extend, elem_of_app in Hc.
      exists (cs ++ [c]). split.
      * intros c0 [?|Heq%list_elem_of_singleton]%elem_of_app;
          [by apply Hcs|]. subst c0. tauto.
      * rewrite lookup_insert_eq. f_equal.
        by rewrite <- extend_notes_app.
  - intros now k v w w' _ (cs & Hcs & Hw) Hstep. exists cs. split; [done|].
    by rewrite (insert_step_other _ _ _ _ _ "notes" Hstep).
  - exists []. split; [by intros c ?%elem_of_nil|].
    by rewrite extend_notes_nil.
Qed.

Lemma extend_notes_rows t cs i r :
  (∀ c, c ∈ cs → c ∉ col_names t) →
  t_rows t !! i = Some r →
  ∃ r', t_rows (extend_notes cs t) !! i = Some r' ∧ rowid r' = rowid r ∧
        (∀ c, c ∈ col_names t →
              read (extend_notes cs t) r' c = read t r c) ∧
        (∀ c, c ∈ col_names (extend_notes cs t) → c ∉ col_names t →
              read (extend_notes cs t) r' c = VNull).
Proof.
  intros Hcs Hr. eexists. split; [|split; [|split]].
  - simpl. rewrite list_lookup_fmap, Hr. reflexivity.
  - apply rowid_extended.
  - intros c Hc. unfold read. rewrite find_column_extend_old by done.
    destruct (find_column t c) as [col|]; [|done].
    rewrite rowid_extended, cells_extended.
    rewrite decide_False; [done|]. intros Hin. by apply (Hcs c).
  - intros c Hnew Hold. rewrite col_names_extend, elem_of_app in Hnew.
    destruct Hnew as [?|Hnew]; [done|].
    unfold read. rewrite find_column_extend_new by done. simpl.
    rewrite cells_extended. by rewrite decide_True.
Qed.

(** C5. The migration is additive and loses no data.  For every notes
    table found before the run, in what the run leaves on disk (however
    it ends): the old columns come first, unchanged and in the same order;
    there are as many rows; each row is at its place with the same rowid
    and reads the same in every column it had; it reads NULL in every
    column it did not have.  When the run commits, title, content,
    created_at and updated_at are among the columns. *)
Theorem notes_migration_is_additive e d t :
  d !! "notes" = Some t →
  ∃ t', left_on_disk e d !! "notes" = Some t' ∧
    t_columns t `prefix_of` t_columns t' ∧
    length (t_rows t') = length (t_rows t) ∧
    (∀ i r, t_rows t !! i = Some r →
       ∃ r', t_rows t' !! i = Some r' ∧ rowid r' = rowid r ∧
         (∀ c, c ∈ col_names t → read t' r' c = read t r c) ∧
         (∀ c, c ∈ col_names t' → c ∉ col_names t →
               read t' r' c = VNull)) ∧
    (reads_notes e → is_Some (run e d) →
     ∀ c, c ∈ migrated_columns → c ∈ col_names t').
Proof.
  intros Ht. destruct (notes_is_extended e d t Ht) as (cs & Hcs & Hleft).
  exists (extend_notes cs t). split; [done|]. split; [|split; [|split]].
  - simpl. by eexists.
  - simpl. by rewrite length_fmap.
  - intros i r Hr. by apply extend_notes_rows.
  - intros He [d' Hrun] c Hc.
    rewrite (left_on_disk_run e d d' Hrun) in Hleft.
    rewrite (run_other e d d' "notes" He Hrun) in Hleft by done.
    rewrite schema_phase_notes, Ht in Hleft. apply (inj Some) in Hleft.
    rewrite <- Hleft, col_names_extend, elem_of_app.
    destruct (decide (c ∈ col_names t)); [by left|right].
    unfold missing. by apply list_elem_of_filter.
Qed.

Lemma notes_migration_is_additive_witness :
  old_db !! "notes" = Some old_notes ∧
  ∃ t', left_on_disk noon old_db !! "notes" = Some t' ∧
    t_columns old_notes `prefix_of` t_columns t' ∧
    length (t_rows t') = length (t_rows old_notes) ∧
    (∀ i r, t_rows old_notes !! i = Some r →
       ∃ r', t_rows t' !! i = Some r' ∧ rowid r' = rowid r ∧
         (∀ c, c ∈ col_names old_notes →
               read t' r' c = read old_notes r c) ∧
         (∀ c, c ∈ col_names t' → c ∉ col_names old_notes →
               read t' r' c = VNull)) ∧
    (reads_notes noon → is_Some (run noon old_db) →
     ∀ c, c ∈ migrated_columns → c ∈ col_names t').
Proof.
  split; [reflexivity|].
  apply (notes_migration_is_additive noon old_db old_notes). reflexivity.
Defined.

(** Section 8 of the specification, run: the one row keeps its rowid and
    its title, and reads NULL in the three columns the run adds. *)
Example additive_migration_scenario :
  ∃ d' t' r',
    run noon old_db = Some d' ∧ d' !! "notes" = Some t' ∧
    t_rows t' = [r'] ∧
    col_names t' = ["id"; "title"; "content"; "created_at"; "updated_at"] ∧
    read t' r' "id" = VInt 1 ∧
    read t' r' "title" = VText "groceries" ∧
    read t' r' "content" = VNull ∧
    read t' r' "created_at" = VNull ∧
    read t' r' "updated_at" = VNull.
Proof.
  eexists _, _, _. split; [vm_compute; reflexivity|].
  split; [vm_compute; reflexivity|]. by vm_compute.
Qed.


Lemma migrated_or_missing t c :
  c ∈ migrated_columns → c ∈ col_names t ++ missing t.
Proof.
  intros Hc. rewrite elem_of_app.
  destruct (decide (c ∈ col_names t)); [by left|right].
  unfold missing. by apply list_elem_of_filter.
Qed.






(** ** Transactions and failures *)

(** C2, as the code has it.  The seeded rows become durable only through
    the commit that ends the batch, and after it nothing is pending.  When
    a statement raises before that commit, [app_info] holds on disk
    exactly the rows it held before the run; but the schema on disk is the
    schema the connection has reached, and every other table on disk is as
    the connection sees it: the tables created and the columns added
    before the failure stay. *)
Theorem commit_covers_only_the_seeded_rows e d :
  match converge e (open d) with
  | Ok _ c => disk c = work c ∧ in_txn c = false
  | Raise _ c =>
      rows_of "app_info" (disk c) = rows_of "app_info" d ∧
      schema (disk c) = schema (work c) ∧
      (∀ name, name ≠ "app_info" → disk c !! name = work c !! name)
  end.
Proof.
  pose (I1 := λ (dk w : db) (t : bool),
    t = false ∧ dk = w ∧ rows_of "app_info" w = rows_of "app_info" d).
  pose (I2 := λ (dk w : db) (t : bool),
    rows_of "app_info" dk = rows_of "app_info" d ∧
    schema dk = schema w ∧
    (∀ name, name ≠ "app_info" → dk !! name = w !! name)).
  pose (Q := λ (dk w : db) (t : bool), dk = w ∧ t = false).
  assert (triple (on I1) (converge e) (λ _, on Q) (on I2)) as H.
  { apply converge_triple; unfold I1, I2, Q.
    - intros stmt dk w t w' Hs (-> & -> & Hrows) Hw.
      repeat split. by rewrite (script_ddl_rows stmt w w' _ Hs Hw).
    - intros dk w t (_ & -> & Hrows). done.
    - done.
    - intros dk w t w' now k v _ (Hrows & Hsch & Hoth) Hw.
      split; [done|]. split.
      + rewrite Hsch. apply map_eq. intros name.
        by rewrite (insert_step_columns _ _ _ _ _ name Hw).
      + intros name Hne.
        rewrite (insert_step_other _ _ _ _ _ name Hw) by done.
        by apply Hoth.
    - done. }
  specialize (H (open d)). unfold on, I1, I2, Q in H. simpl in H.
  destruct (converge e (open d)); by apply H.
Qed.

(** C2, as stated, fails: on a database whose [app_info] lacks the key
    column the first seeding statement raises, nothing is committed, and
    the tables users and notes, created by this run, are on disk. *)
Lemma created_tables_survive_a_failed_run :
  run noon foreign_db = None ∧
  foreign_db !! "users" = None ∧ foreign_db !! "notes" = None ∧
  schema (left_on_disk noon foreign_db) !! "users" = Some users_columns ∧
  schema (left_on_disk noon foreign_db) !! "notes" = Some notes_columns.
Proof. by vm_compute. Qed.

(** ** The accessibility probe *)

(** The probe decides nothing: the script goes on to connect and to run
    its batch whatever the probe printed. *)
Lemma probe_never_stops_the_run e f :
  console (main e f) = "Starting SQLite setup..." :: probe f ∧
  match connect f with
  | inl x => ending_of (main e f) = Uncaught x
  | inr c =>
      ending_of (main e f)
        = match converge e c with
          | Ok _ _ => Completed
          | Raise x _ => Uncaught x
          end
  end.
Proof.
  unfold main. destruct (connect f) as [x|c]; [done|].
  by destruct (converge e c).
Qed.

(** A file that cannot be opened is reported by the probe. *)
Lemma probe_warns_when_the_file_cannot_be_opened :
  probe Unopenable
    = ["SQLite database already exists at myapp.db";
       "Warning: Database exists but may be corrupted: " +:+
         "unable to open database file"].
Proof. reflexivity. Qed.

(** C7, at the failing input: a file that exists and is not a database.
    The probe's query reads nothing from the file, so the probe reports
    the database as accessible and prints no warning; the script goes on,
    and its first statement raises. *)
Theorem probe_passes_a_file_that_is_not_a_database e :
  main e NotADatabase
    = Outcome
        ["Starting SQLite setup...";
         "SQLite database already exists at myapp.db";
         "Database is accessible and working."]
        (Uncaught (DatabaseError "file is not a database"))
        NotADatabase.
Proof. reflexivity. Qed.

(** ** Column introspection *)

Lemma existing_columns_of_absent_table e name c :
  file_ok c = true → fault e (pc c) = false → work c !! name = None →
  _get_existing_columns e name c
    = Ok ∅ (Conn true (disk c) (work c) (in_txn c) (S (pc c))).
Proof.
  intros Hf Hn Hw. unfold _get_existing_columns, select_master_name.
  unfold mbind, M_bind, bind. rewrite begin_statement_run by done.
  unfold get_work, ret, master_rows. simpl. by rewrite Hw.
Qed.

Lemma existing_columns_of_plain_name e name t c :
  file_ok c = true → fault e (pc c) = false → fault e (S (pc c)) = false →
  reads_name e name = Some name → work c !! name = Some t →
  _get_existing_columns e name c
    = Ok (list_to_set (col_names t))
         (Conn true (disk c) (work c) (in_txn c) (S (S (pc c)))).
Proof.
  intros Hf Hn Hn' Hr Hw. unfold _get_existing_columns, select_master_name.
  unfold pragma_table_info.
  unfold mbind, M_bind, bind. rewrite begin_statement_run by done.
  unfold get_work, ret, master_rows. simpl. rewrite Hw. simpl.
  unfold begin_statement. simpl. rewrite Hn', Hr. simpl.
  unfold mret, M_ret, ret. by rewrite info_names, Hw.
Qed.


(** ** Seeding and re-running *)

















(** Seeding version twice leaves one row with the key version. *)
Example version_is_seeded_once :
  ∃ d', run_many [noon; later] ∅ = Some d' ∧
        length (filter (has_key "version") (rows_of "app_info" d')) = 1%nat.
Proof. eexists. split; [vm_compute; reflexivity|]. by vm_compute. Qed.




(** ** Further properties of the introspection functions *)

Import Report.

Example like_sqlite_examples :
  like_sqlite_ <$> ["sqlitex"; "SQLITE3cache"; "Sqlite-b"; "sqlite_sequence";
                    "sqlite"; "sqlit_e"; "xsqlite_a"; "notes"]
    = [true; true; true; true; false; false; false; false].
Proof. reflexivity. Qed.

(** X1. Absent an engine fault, [_table_exists] answers true exactly when
    the catalog holds a table of that name, false for every other name
    without raising, and changes nothing but the statement count. *)
Theorem table_exists_reports_the_catalog e name c :
  file_ok c = true → fault e (pc c) = false →
  ∃ b, _table_exists e name c
         = Ok b (Conn true (disk c) (work c) (in_txn c) (S (pc c))) ∧
       (b = true ↔ name ∈ dom (work c)).
Proof.
  intros Hf Hn. exists (bool_decide (is_Some (work c !! name))). split.
  - unfold _table_exists, select_master_one.
    unfold mbind, M_bind, bind. rewrite begin_statement_run by done.
    unfold get_work, ret, master_rows. simpl.
    by destruct (work c !! name).
  - rewrite bool_decide_eq_true. by rewrite elem_of_dom.
Qed.

Lemma table_exists_reports_the_catalog_witness :
  file_ok (open old_db) = true ∧ fault noon (pc (open old_db)) = false ∧
  ∃ b, _table_exists noon "users" (open old_db)
         = Ok b (Conn true old_db old_db false 1) ∧
       (b = true ↔ "users" ∈ dom (work (open old_db))).
Proof.
  split; [reflexivity|]. split; [reflexivity|].
  apply (table_exists_reports_the_catalog noon "users" (open old_db));
    reflexivity.
Defined.

(** X2. For a name no table has, [_get_existing_columns] returns the
    empty set after its one catalog query: the PRAGMA is not issued, so
    nothing depends on how the name would read in it. *)
Theorem existing_columns_empty_for_absent_table e name c :
  file_ok c = true → fault e (pc c) = false → name ∉ dom (work c) →
  _get_existing_columns e name c
    = Ok ∅ (Conn true (disk c) (work c) (in_txn c) (S (pc c))).
Proof.
  intros Hf Hn Hd. apply existing_columns_of_absent_table; [done..|].
  by apply not_elem_of_dom.
Qed.

Lemma existing_columns_empty_for_absent_table_witness :
  file_ok (open spaced_db) = true ∧
  fault noon (pc (open spaced_db)) = false ∧
  ("no such" ∉ dom (work (open spaced_db))) ∧
  _get_existing_columns noon "no such" (open spaced_db)
    = Ok ∅ (Conn true spaced_db spaced_db false 1).
Proof.
  split; [reflexivity|]. split; [reflexivity|].
  split; [by vm_compute|].
  apply (existing_columns_empty_for_absent_table noon "no such"
           (open spaced_db)); [reflexivity|reflexivity|by vm_compute].
Defined.

(** X3. For a table whose name the engine reads back as itself when it is
    written bare, [_get_existing_columns] returns, absent engine faults,
    exactly the names of the table's columns, after two statements. *)
Theorem existing_columns_are_the_column_names e name t c :
  file_ok c = true → fault e (pc c) = false → fault e (S (pc c)) = false →
  reads_name e name = Some name → work c !! name = Some t →
  ∃ s, _get_existing_columns e name c
         = Ok s (Conn true (disk c) (work c) (in_txn c) (S (S (pc c)))) ∧
       ∀ x, x ∈ s ↔ ∃ col, col ∈ t_columns t ∧ c_name col = x.
Proof.
  intros Hf Hn Hn' Hr Hw. exists (list_to_set (col_names t)). split.
  - by apply existing_columns_of_plain_name.
  - intros x. rewrite elem_of_list_to_set. unfold col_names.
    rewrite list_elem_of_fmap. split.
    + intros (col & -> & Hcol). by exists col.
    + intros (col & Hcol & <-). by exists col.
Qed.

Lemma existing_columns_are_the_column_names_witness :
  file_ok (open old_db) = true ∧ fault noon (pc (open old_db)) = false ∧
  fault noon (S (pc (open old_db))) = false ∧
  reads_name noon "notes" = Some "notes" ∧
  work (open old_db) !! "notes" = Some old_notes ∧
  ∃ s, _get_existing_columns noon "notes" (open old_db)
         = Ok s (Conn true old_db old_db false 2) ∧
       ∀ x, x ∈ s ↔ ∃ col, col ∈ t_columns old_notes ∧ c_name col = x.
Proof.
  split; [reflexivity|]. split; [reflexivity|]. split; [reflexivity|].
  split; [reflexivity|]. split; [reflexivity|].
  apply (existing_columns_are_the_column_names noon "notes" old_notes
           (open old_db)); reflexivity.
Defined.

(** X4. Both introspection functions are read-only: whether they return
    or raise, what is durable, what the connection sees and the state of
    the transaction are as before. *)
Theorem introspection_is_read_only e name c :
  match _table_exists e name c with
  | Ok _ c' | Raise _ c' =>
      disk c' = disk c ∧ work c' = work c ∧ in_txn c' = in_txn c
  end ∧
  match _get_existing_columns e name c with
  | Ok _ c' | Raise _ c' =>
      disk c' = disk c ∧ work c' = work c ∧ in_txn c' = in_txn c
  end.
Proof.
  pose (I := λ (dk w : db) (t : bool),
    dk = disk c ∧ w = work c ∧ t = in_txn c).
  assert (on I c) as Hc by done.
  split.
  - pose proof (_table_exists_triple e name I c Hc) as H.
    destruct (_table_exists e name c); exact H.
  - pose proof (_get_existing_columns_triple e name I c Hc) as H.
    destruct (_get_existing_columns e name c); exact H.
Qed.

(** ** Further properties of the notes migration *)

Lemma migrate_notes_lookup (w : db) :
  migrate_notes w !! "notes"
    = Some match w !! "notes" with
           | Some t => extend_notes (missing t) t
           | None => Table notes_columns [] 0
           end.
Proof.
  destruct (w !! "notes") as [t|] eqn:Ht.
  - rewrite (migrate_notes_existing w t Ht). by rewrite lookup_insert_eq.
  - rewrite (migrate_notes_absent w Ht). by rewrite lookup_insert_eq.
Qed.

(** X5. [_ensure_notes_schema] cannot fail by itself: absent engine
    faults, and with the word notes read as the table notes, it returns;
    it leaves every other table as it was, within no transaction; notes
    is then the descriptor's table if there was none, and otherwise the
    table it found with the missing ones of title, content, created_at and
    updated_at appended in that order as text columns, NULL in every
    row. *)
Theorem ensure_notes_schema_converges e w n :
  reads_notes e → no_fault e →
  ∃ w' n',
    _ensure_notes_schema e (settled w n) = Ok tt (settled w' n') ∧
    (∀ name, name ≠ "notes" → w' !! name = w !! name) ∧
    w' !! "notes"
      = Some match w !! "notes" with
             | Some t =>
                 Table (t_columns t ++
                          (text_column <$>
                             filter (λ c, c ∉ col_names t) migrated_columns))
                       ((λ r, foldl (λ r c, add_cell c r) r
                                (filter (λ c, c ∉ col_names t)
                                   migrated_columns)) <$> t_rows t)
                       (t_seq t)
             | None => Table notes_columns [] 0
             end.
Proof.
  intros He Hnf.
  destruct (_ensure_notes_schema_run e w n He Hnf) as [n' Hrun].
  exists (migrate_notes w), n'. split; [done|]. split.
  - intros name Hne. by apply migrate_notes_other.
  - apply migrate_notes_lookup.
Qed.

Lemma ensure_notes_schema_converges_witness :
  reads_notes noon ∧ no_fault noon ∧
  ∃ w' n',
    _ensure_notes_schema noon (settled old_db 0) = Ok tt (settled w' n') ∧
    (∀ name, name ≠ "notes" → w' !! name = old_db !! name) ∧
    w' !! "notes"
      = Some match old_db !! "notes" with
             | Some t =>
                 Table (t_columns t ++
                          (text_column <$>
                             filter (λ c, c ∉ col_names t) migrated_columns))
                       ((λ r, foldl (λ r c, add_cell c r) r
                                (filter (λ c, c ∉ col_names t)
                                   migrated_columns)) <$> t_rows t)
                       (t_seq t)
             | None => Table notes_columns [] 0
             end.
Proof.
  split; [reflexivity|]. split; [intros k; reflexivity|].
  apply (ensure_notes_schema_converges noon old_db 0);
    [reflexivity|intros k; reflexivity].
Defined.

(** When notes has the four columns, the function issues its three
    queries and no schema statement. *)
Lemma ensure_notes_schema_has_nothing_to_do e w t n :
  reads_notes e → no_fault e →
  w !! "notes" = Some t →
  (∀ c, c ∈ migrated_columns → c ∈ col_names t) →
  _ensure_notes_schema e (settled w n) = Ok tt (settled w (S (S (S n)))).
Proof.
  intros He Hnf Ht Hcols. unfold _ensure_notes_schema.
  rewrite (bind_run _ _ _ _ _ (_table_exists_run e "notes" w n Hnf)).
  rewrite Ht. simpl.
  rewrite (bind_run _ _ _ _ _
             (_get_existing_columns_run e "notes" w t _ Hnf He Ht)).
  unfold add_if_missing.
  rewrite !bool_decide_eq_false_2; [done|..];
    (intros H; apply H; apply elem_of_list_to_set, Hcols;
     unfold migrated_columns; in_list).
Qed.

(** X6. [_ensure_notes_schema] is idempotent: called again on the
    database it has just left, absent engine faults, it returns after its
    three queries, issues no schema statement and leaves the database as
    it is. *)
Theorem ensure_notes_schema_is_idempotent e w n :
  reads_notes e → no_fault e →
  ∃ w' n',
    _ensure_notes_schema e (settled w n) = Ok tt (settled w' n') ∧
    _ensure_notes_schema e (settled w' n')
      = Ok tt (settled w' (S (S (S n')))).
Proof.
  intros He Hnf.
  destruct (_ensure_notes_schema_run e w n He Hnf) as [n' Hrun].
  exists (migrate_notes w), n'. split; [done|].
  eapply ensure_notes_schema_has_nothing_to_do;
    [done|done|apply migrate_notes_lookup|].
  destruct (w !! "notes") as [t|].
  - rewrite col_names_extend. apply migrated_or_missing.
  - intros c Hc. unfold migrated_columns in Hc.
    repeat (apply elem_of_cons in Hc as [->|Hc]); [compute_done..|].
    by apply elem_of_nil in Hc.
Qed.

Lemma ensure_notes_schema_is_idempotent_witness :
  reads_notes noon ∧ no_fault noon ∧
  ∃ w' n',
    _ensure_notes_schema noon (settled keyless_db 0)
      = Ok tt (settled w' n') ∧
    _ensure_notes_schema noon (settled w' n')
      = Ok tt (settled w' (S (S (S n')))).
Proof.
  split; [reflexivity|]. split; [intros k; reflexivity|].
  apply (ensure_notes_schema_is_idempotent noon keyless_db 0);
    [reflexivity|intros k; reflexivity].
Defined.

(** ** Further properties of the batch *)

(** X7. The batch never touches a table it does not manage, and never
    writes a row of users: whatever the run leaves on disk, however it
    ends, every table other than app_info, users and notes is as before,
    and users holds the rows it held (none if the run created it). *)
Theorem unmanaged_tables_and_users_rows_are_untouched e d :
  rows_of "users" (left_on_disk e d) = rows_of "users" d ∧
  ∀ name, name ∉ managed → left_on_disk e d !! name = d !! name.
Proof.
  apply (converge_keeps
           (λ w, rows_of "users" w = rows_of "users" d ∧
                 ∀ name, name ∉ managed → w !! name = d !! name)).
  - intros stmt w w' Hs [Hrows Hoth] Hw. split.
    + by rewrite (script_ddl_rows stmt w w' "users" Hs Hw).
    + intros name Hname. rewrite <- (Hoth name Hname).
      assert (name ≠ "app_info" ∧ name ≠ "users" ∧ name ≠ "notes")
        as (Ha & Hu & Hn) by (unfold managed in Hname; set_solver).
      destruct Hs as [n cols Hin|c _].
      * injection Hw as <-. rewrite create_lookup. case_decide; [|done].
        subst n. exfalso.
        repeat (apply elem_of_cons in Hin as [[= ? ?]|Hin]); try done.
        by apply elem_of_nil in Hin.
      * unfold add_column in Hw. destruct (w !! "notes"); [|done].
        case_bool_decide; [done|]. injection Hw as <-.
        by rewrite lookup_insert_ne.
  - intros now k v w w' _ [Hrows Hoth] Hw. split.
    + unfold rows_of.
      by rewrite (insert_step_other _ _ _ _ _ "users" Hw).
    + intros name Hname. rewrite <- (Hoth name Hname).
      apply (insert_step_other _ _ _ _ _ name Hw).
      unfold managed in Hname. set_solver.
  - done.
Qed.

Lemma dom_create name cols (w : db) :
  dom (create_table_if_not_exists name cols w) = dom w ∪ {[name]}.
Proof.
  unfold create_table_if_not_exists. destruct (w !! name) as [t|] eqn:Ht.
  - apply (elem_of_dom_2 w) in Ht. set_solver.
  - rewrite dom_insert_L. set_solver.
Qed.

Lemma dom_add_missing s (w : db) c : dom (add_missing s w c) = dom w.
Proof.
  unfold add_missing, add_text, add_column. case_bool_decide; [|done].
  destruct (w !! "notes") as [t|] eqn:Ht; [|done].
  case_bool_decide; [done|]. rewrite dom_insert_L.
  apply (elem_of_dom_2 w) in Ht. set_solver.
Qed.

Lemma dom_insert_step now name assigns (w w' : db) :
  insert_step now name assigns w = inr w' → dom w' = dom w.
Proof.
  intros (t & rows' & s' & Ht & ->)%insert_step_shape.
  rewrite dom_insert_L. apply (elem_of_dom_2 w) in Ht. set_solver.
Qed.

Lemma _ensure_notes_schema_Ok_dom e w n u c' :
  _ensure_notes_schema e (settled w n) = Ok u c' →
  ∃ w' n', c' = settled w' n' ∧ dom w' = dom w ∪ {["notes"]}.
Proof.
  intros H. unfold _ensure_notes_schema in H.
  apply bind_Ok in H as (present & c1 & H1 & H).
  apply _table_exists_Ok in H1 as [-> ->]. simpl in H.
  destruct (w !! "notes") as [t|] eqn:Ht; simpl in H.
  - apply bind_Ok in H as (s & c2 & H2 & H).
    apply _get_existing_columns_Ok in H2. simpl in H2. rewrite Ht in H2.
    destruct H2 as (n0 & _ & _ & ->).
    apply bind_Ok in H as (? & c3 & H3 & H).
    apply (add_if_missing_Ok e _ _ w) in H3 as [n3 ->].
    apply bind_Ok in H as (? & c4 & H4 & H).
    apply add_if_missing_Ok in H4 as [n4 ->].
    apply bind_Ok in H as (? & c5 & H5 & H).
    apply add_if_missing_Ok in H5 as [n5 ->].
    apply add_if_missing_Ok in H as [n6 ->].
    eexists _, _. split; [done|]. rewrite !dom_add_missing.
    apply (elem_of_dom_2 w) in Ht. set_solver.
  - apply create_Ok in H as ->. eexists _, _. split; [done|].
    apply dom_create.
Qed.

(** A run that commits leaves the catalog it found with the three
    managed tables added. *)
Lemma committed_catalog e d d' :
  run e d = Some d' → dom d' = dom d ∪ managed.
Proof.
  unfold run. destruct (converge e (open d)) as [u c'|] eqn:H; [|done].
  intros [= <-]. unfold converge in H.
  apply bind_Ok in H as (? & c1 & H1 & H).
  apply (create_Ok e _ _ d 0%nat) in H1 as ->.
  apply bind_Ok in H as (? & c2 & H2 & H).
  apply create_Ok in H2 as ->.
  apply bind_Ok in H as (? & c3 & H3 & H).
  apply _ensure_notes_schema_Ok_dom in H3 as (w & n & -> & Hw).
  rewrite !dom_create in Hw.
  apply bind_Ok in H as (? & c4 & H4 & H).
  apply execute_insert_Ok in H4 as (_ & _ & d1 & Hd1%dom_insert_step & ->).
  apply bind_Ok in H as (? & c5 & H5 & H).
  apply execute_insert_Ok in H5 as (_ & _ & d2 & Hd2%dom_insert_step & ->).
  apply bind_Ok in H as (? & c6 & H6 & H).
  apply execute_insert_Ok in H6 as (_ & _ & d3 & Hd3%dom_insert_step & ->).
  apply bind_Ok in H as (? & c7 & H7 & H).
  apply execute_insert_Ok in H7 as (_ & _ & d4 & Hd4%dom_insert_step & ->).
  apply commit_Ok in H. simpl in *. subst c'. simpl.
  rewrite Hd4, Hd3, Hd2, Hd1, Hw. unfold managed. set_solver.
Qed.

(** X8. The catalog only grows, and only by the managed tables: however
    the run ends, every table found before it is still on disk and any new
    one is app_info, users or notes; when the run commits, the catalog is
    exactly the one found with those three added. *)
Theorem catalog_only_grows e d :
  dom d ⊆ dom (left_on_disk e d) ∧
  dom (left_on_disk e d) ⊆ dom d ∪ managed ∧
  (is_Some (run e d) → dom (left_on_disk e d) = dom d ∪ managed).
Proof.
  assert (dom d ⊆ dom (left_on_disk e d) ∧
          dom (left_on_disk e d) ⊆ dom d ∪ managed) as [H1 H2].
  { apply (converge_keeps
             (λ w, dom d ⊆ dom w ∧ dom w ⊆ dom d ∪ managed)).
    - intros stmt w w' Hs [Hlo Hhi] Hw. destruct Hs as [n cols Hin|c _].
      + injection Hw as <-. rewrite dom_create.
        assert (n ∈ managed).
        { unfold managed.
          repeat (apply elem_of_cons in Hin as [[= -> _]|Hin]);
            [set_solver..|by apply elem_of_nil in Hin]. }
        set_solver.
      + assert (dom w' = dom w) as ->; [|done].
        pose proof (dom_add_missing ∅ w c) as Hd.
        unfold add_missing, add_text in Hd.
        rewrite bool_decide_eq_true_2 in Hd by set_solver.
        by rewrite Hw in Hd.
    - intros now k v w w' _ [Hlo Hhi] Hw.
      by rewrite (dom_insert_step _ _ _ _ _ Hw).
    - set_solver. }
  split; [done|]. split; [done|].
  intros [d' Hrun]. rewrite (left_on_disk_run e d d' Hrun).
  by apply (committed_catalog e).
Qed.

Lemma _ensure_notes_schema_creates e (w : db) n :
  no_fault e → w !! "notes" = None →
  _ensure_notes_schema e (settled w n)
    = Ok tt (settled (<["notes" := Table notes_columns [] 0]> w) (S (S n))).
Proof.
  intros Hnf Hw. unfold _ensure_notes_schema.
  rewrite (bind_run _ _ _ _ _ (_table_exists_run e "notes" w n Hnf)).
  rewrite Hw. simpl.
  apply execute_ddl_run; [done|].
  unfold create_table_if_not_exists. by rewrite Hw.
Qed.

Lemma seed_on_seeded e k v dk (w : db) t rows s k0 v0 now0 n :
  no_fault e →
  let T := seeded_table rows s k0 v0 now0 in
  seed e k v (Conn true dk (<["app_info" := T]> w) t n)
    = Ok tt (Conn true dk
               (<["app_info" :=
                    seeded_table (t_rows T) (t_seq T) k v (clock e n)]> w)
               true (S n)).
Proof.
  intros Hnf T.
  rewrite (seed_run e k v dk _ t (t_rows T) (t_seq T) n Hnf)
    by (by rewrite lookup_insert_eq).
  by rewrite insert_insert_eq.
Qed.

(** X9. Fresh creation.  Where there is no database file, absent engine
    faults, the script prints that it creates one, completes, and leaves a
    database with exactly the three tables as the script declares them,
    users and notes empty, and in app_info the four seeded pairs in the
    order of the script, with ids 1 to 4 and each created_at the clock
    reading of its own statement (the fifth to the eighth of the
    connection). *)
Theorem fresh_database e :
  no_fault e →
  ∃ d',
    main e Absent
      = Outcome ["Starting SQLite setup...";
                 "Creating new SQLite database..."]
                Completed (Database d') ∧
    schema d' = {[ "app_info" := app_info_columns;
                   "users" := users_columns;
                   "notes" := notes_columns ]} ∧
    rows_of "users" d' = [] ∧ rows_of "notes" d' = [] ∧
    (λ r, (rowid r, key_of r, value_of r, created_at_of r))
      <$> rows_of "app_info" d'
      = [ (1, Some (VText "project_name"), Some (VText "database"),
           Some (VText (clock e 4)));
          (2, Some (VText "version"), Some (VText "0.1.0"),
           Some (VText (clock e 5)));
          (3, Some (VText "author"), Some (VText "John Doe"),
           Some (VText (clock e 6)));
          (4, Some (VText "description"), Some (VText ""),
           Some (VText (clock e 7))) ].
Proof.
  intros Hnf.
  assert (∃ d', converge e (open ∅) = Ok tt (settled d' 9) ∧
    d' = <["app_info" :=
             Table app_info_columns
               (seeded_rows [] 0 (clock e 4) (clock e 5) (clock e 6)
                  (clock e 7)) 4]> (schema_phase ∅)) as (d' & Hrun & Hd').
  { eexists. split.
    - unfold converge. change (open ∅) with (settled ∅ 0).
      rewrite (bind_run _ _ _ _ _
                 (execute_ddl_run e
                    (λ d, inr (create_table_if_not_exists
                                 "app_info" app_info_columns d))
                    ∅ _ 0%nat Hnf eq_refl)).
      rewrite (bind_run _ _ _ _ _
                 (execute_ddl_run e
                    (λ d, inr (create_table_if_not_exists
                                 "users" users_columns d))
                    _ _ 1%nat Hnf eq_refl)).
      assert (create_table_if_not_exists "users" users_columns
                (create_table_if_not_exists "app_info" app_info_columns ∅)
              !! "notes" = None) as Hnone by (by vm_compute).
      rewrite (bind_run _ _ _ _ _
                 (_ensure_notes_schema_creates e _ 2%nat Hnf Hnone)).
      unfold settled.
      set (W := <["notes" := Table notes_columns [] 0]> _).
      assert (W !! "app_info" = Some (Table app_info_columns [] 0)) as Ha
        by (by vm_compute).
      rewrite (bind_run _ _ _ _ _
                 (seed_run e "project_name" "database" _ W false [] 0
                    4%nat Hnf Ha)).
      rewrite (bind_run _ _ _ _ _
                 (seed_on_seeded e "version" "0.1.0" _ W _ _ _ _ _ _
                    5%nat Hnf)).
      rewrite (bind_run _ _ _ _ _
                 (seed_on_seeded e "author" "John Doe" _ W _ _ _ _ _ _
                    6%nat Hnf)).
      rewrite (bind_run _ _ _ _ _
                 (seed_on_seeded e "description" "" _ W _ _ _ _ _ _
                    7%nat Hnf)).
      unfold commit, bind, begin_statement. simpl. rewrite Hnf.
      reflexivity.
    - reflexivity. }
  exists d'. split.
  - unfold main.
    change (connect Absent) with (@inr exn conn (open ∅)).
    cbv beta iota. by rewrite Hrun.
  - rewrite Hd'. by vm_compute.
Qed.

Lemma fresh_database_witness :
  no_fault noon ∧
  ∃ d',
    main noon Absent
      = Outcome ["Starting SQLite setup...";
                 "Creating new SQLite database..."]
                Completed (Database d') ∧
    schema d' = {[ "app_info" := app_info_columns;
                   "users" := users_columns;
                   "notes" := notes_columns ]} ∧
    rows_of "users" d' = [] ∧ rows_of "notes" d' = [] ∧
    (λ r, (rowid r, key_of r, value_of r, created_at_of r))
      <$> rows_of "app_info" d'
      = [ (1, Some (VText "project_name"), Some (VText "database"),
           Some (VText (clock noon 4)));
          (2, Some (VText "version"), Some (VText "0.1.0"),
           Some (VText (clock noon 5)));
          (3, Some (VText "author"), Some (VText "John Doe"),
           Some (VText (clock noon 6)));
          (4, Some (VText "description"), Some (VText ""),
           Some (VText (clock noon 7))) ].
Proof.
  split; [intros k; reflexivity|].
  apply (fresh_database noon). intros k. reflexivity.
Defined.
